(** * Titon.TypeAhead: a model of the type-ahead widget and its properties

    Shallow embedding of [src/js/modules/TypeAhead.js].  JavaScript strings
    are modelled as sequences of code units below 256 (Rocq's [string]);
    numbers that the widget compares or counts with are integers ([Z]);
    the widget object is a record that every method takes and returns;
    thrown exceptions are an explicit outcome.  The cache and the registry
    are ordinary objects: a finite map of their own properties, read
    together with the members they inherit.  Arrays that the widget holds
    and hands to [process] are the same arrays afterwards, with what the
    sorter left in them. *)

From Stdlib Require Import ZArith Lia Bool Ascii String List.
From stdpp Require Import base option list sorting gmap strings.
From Equations Require Import Equations.
Import ListNotations.

Local Open Scope string_scope.
Local Open Scope Z_scope.
Local Open Scope list_scope.

(** ** Code units *)

Module Js.

Definition code (c : ascii) : Z := Z.of_N (N_of_ascii c).
Definition unit_of (z : Z) : ascii := ascii_of_N (Z.to_N z).

Definition between (lo hi : Z) (c : ascii) : bool :=
  (lo <=? code c) && (code c <=? hi).

(** [String.prototype.toLowerCase], one code unit at a time: A-Z and the
    Latin-1 capitals U+00C0-U+00DE (without the multiplication sign). *)
Definition lower_unit (c : ascii) : ascii :=
  if between 65 90 c || between 192 214 c || between 216 222 c
  then unit_of (code c + 32) else c.

Fixpoint toLowerCase (s : string) : string :=
  match s with
  | EmptyString => EmptyString
  | String c s' => String (lower_unit c) (toLowerCase s')
  end.

(** Canonicalization of a code unit under the [i] flag of a RegExp (without
    the [u] flag): the upper-case mapping when it is a single code unit.
    Within Latin-1, U+00DF has a two-unit upper case and stays, and U+00B5
    and U+00FF map outside Latin-1 to units nothing else below 256 maps to,
    so they keep their own class. *)
Definition canonicalize (c : ascii) : ascii :=
  if between 97 122 c || between 224 246 c || between 248 254 c
  then unit_of (code c - 32) else c.

(** The code units of ASCII.  On them [toLowerCase] and the
    canonicalization of a pattern relate as [lower_unit] and [canonicalize]
    do; among the code units above 255, which the model leaves out, there
    are some that lower-casing maps to ASCII letters and a pattern does
    not. *)
Definition is_ascii (c : ascii) : bool := code c <? 128.

(** White space as [String.prototype.trim] sees it, below 256. *)
Definition is_white (c : ascii) : bool :=
  between 9 13 c || (code c =? 32) || (code c =? 160).

Fixpoint trim_left (s : string) : string :=
  match s with
  | String c s' => if is_white c then trim_left s' else s
  | EmptyString => EmptyString
  end.

Fixpoint trim_right (s : string) : string :=
  match s with
  | EmptyString => EmptyString
  | String c s' =>
      match trim_right s' with
      | EmptyString => if is_white c then EmptyString else String c EmptyString
      | r => String c r
      end
  end.

Definition trim (s : string) : string := trim_left (trim_right s).

Definition length (s : string) : Z := Z.of_nat (String.length s).

(** [s.indexOf(t)]: the first position at which [t] occurs, or -1. *)
Fixpoint indexOf_from (i : Z) (s t : string) : Z :=
  if String.prefix t s then i
  else match s with
       | EmptyString => -1
       | String _ s' => indexOf_from (i + 1) s' t
       end.

Definition indexOf (s t : string) : Z := indexOf_from 0 s t.

(** [s.split(" ")]. *)
Fixpoint split_space (s : string) : list string :=
  match s with
  | EmptyString => [EmptyString]
  | String c s' =>
      if Ascii.eqb c " "
      then EmptyString :: split_space s'
      else match split_space s' with
           | piece :: pieces => String c piece :: pieces
           | [] => [String c EmptyString]
           end
  end.

(** [n.limit(min, max)] of MooTools. *)
Definition limit (n lo hi : Z) : Z := Z.min hi (Z.max lo n).

(** [array[i]] for an integer index: [undefined] outside the array. *)
Definition at_index {A} (l : list A) (i : Z) : option A :=
  if i <? 0 then None else nth_error l (Z.to_nat i).

(** What an ordinary object answers under a name it has no property of its
    own for: a function of [Object.prototype], of which the widget can see
    the [length], or, under [__proto__], the prototype object itself, which
    has no [length]. *)
Inductive Member :=
| Method (arity : Z)
| Prototype.

(** The members of [Object.prototype] (ECMAScript 5.1, 15.2.4, and the
    [__proto__] family that the engines add); [Object] itself, under
    [constructor], has length 1.  MooTools adds nothing to them. *)
Definition object_members : list (string * Member) :=
  [("constructor", Method 1); ("toString", Method 0);
   ("toLocaleString", Method 0); ("valueOf", Method 0);
   ("hasOwnProperty", Method 1); ("isPrototypeOf", Method 1);
   ("propertyIsEnumerable", Method 1); ("__defineGetter__", Method 2);
   ("__defineSetter__", Method 2); ("__lookupGetter__", Method 1);
   ("__lookupSetter__", Method 1); ("__proto__", Prototype)].

Definition object_member (k : string) : option Member :=
  match List.find (fun p => String.eqb k (fst p)) object_members with
  | Some p => Some (snd p)
  | None => None
  end.

(** [m.length], with 0 for the [undefined] of the prototype object: the
    widget only tests it. *)
Definition member_length (m : Member) : Z :=
  match m with
  | Method n => n
  | Prototype => 0
  end.

End Js.

(** ** Regular expressions of literals

    [highlight] builds its patterns from escaped text only, so the model of
    [RegExp] covers patterns that denote a literal: ordinary characters and
    backslash escapes of the characters the widget escapes. *)

Module RegExp.

(** The class [[\-\[\]{}()*+?.,\\^$|#]] of the escaping replace. *)
Definition is_meta (c : ascii) : bool :=
  existsb (Ascii.eqb c)
    ["-"; "["; "]"; "{"; "}"; "("; ")"; "*"; "+"; "?"; "."; ","; "\"; "^";
     "$"; "|"; "#"]%char.

(** Characters with a meaning of their own in a pattern. *)
Definition is_syntax (c : ascii) : bool :=
  existsb (Ascii.eqb c)
    ["^"; "$"; "\"; "."; "*"; "+"; "?"; "("; ")"; "["; "]"; "{"; "}";
     "|"]%char.

(** [s.replace(/[\-\[\]{}()*+?.,\\^$|#]/g, "\\$&")]. *)
Fixpoint escape (s : string) : string :=
  match s with
  | EmptyString => EmptyString
  | String c s' =>
      if is_meta c then String "\" (String c (escape s'))
      else String c (escape s')
  end.

(** [new RegExp(src, ...)] for a source that denotes a literal: the text it
    matches.  Other sources ([None]) are outside the model. *)
Fixpoint literal (src : string) : option string :=
  match src with
  | EmptyString => Some EmptyString
  | String "\" (String c rest) =>
      if is_meta c then String c <$> literal rest else None
  | String c rest =>
      if is_syntax c then None else String c <$> literal rest
  end.

(** Does the literal match at the start of [s], ignoring case? *)
Fixpoint matches_at (lit s : string) : bool :=
  match lit, s with
  | EmptyString, _ => true
  | String a lit', String b s' =>
      Ascii.eqb (Js.canonicalize a) (Js.canonicalize b) && matches_at lit' s'
  | String _ _, EmptyString => false
  end.

Fixpoint take (n : nat) (s : string) : string :=
  match n, s with
  | S n', String c s' => String c (take n' s')
  | _, _ => EmptyString
  end.

Fixpoint drop (n : nat) (s : string) : string :=
  match n, s with
  | S n', String _ s' => drop n' s'
  | _, _ => s
  end.

(** [s.replace(new RegExp(src, "ig"), f)] for a literal: every match, found
    from left to right without overlap, is replaced by [f] of the matched
    text.  An empty literal matches before every character and at the end. *)
Equations replace (lit : string) (f : string -> string) (s : string) : string
  by wf (String.length s) lt :=
replace lit f s with matches_at lit s := {
  | false with s := {
      | EmptyString => EmptyString
      | String c s' => String c (replace lit f s') }
  | true with lit := {
      | EmptyString with s := {
          | EmptyString => f EmptyString
          | String c s' => f EmptyString +:+ String c (replace lit f s') }
      | String a lit' with s := {
          | EmptyString => EmptyString
          | String c s' =>
              f (take (String.length lit) s) +:+
              replace lit f (drop (String.length lit') s') } } }.
Next Obligation.
  clear. simpl. generalize (String.length lit') as n.
  induction s' as [|c s' IH]; intros [|n]; simpl; try lia.
  specialize (IH n). lia.
Qed.

End RegExp.

(** ** Data model *)

(** What a source function may hand back: nothing useful, or a list. *)
Inductive Value :=
| Undefined
| Null
| Array (l : list string).

Definition truthy (v : Value) : bool :=
  match v with
  | Array _ => true
  | Undefined | Null => false
  end.

(** The elements of a value that is passed on as a list of items. *)
Definition elements (v : Value) : list string :=
  match v with
  | Array l => l
  | Undefined | Null => []
  end.

(** How a call of a user function ends. *)
Inductive Completion :=
| Return (v : Value)
| Throw.

(** The widget as a source function sees it through [this]. *)
Record Context := {
  this_term : string;
  this_items : list string;
  this_index : Z;
  this_value : string
}.

(** A source function receives its argument list (a caller would pass
    strings) and its [this].  It is modelled by what it returns at each
    call: the array it returns is taken to be held by nobody else. *)
Definition SourceFn := list string -> Context -> Completion.

(** [options.source], by [typeOf]. *)
Inductive Source :=
| SrcArray (l : list string)
| SrcString (url : string)
| SrcFunction (f : SourceFn)
| SrcOther.

(** An option that holds a callback: [null], a function, or something else. *)
Inductive Callback (A : Type) :=
| CbNull
| CbFunction (f : A)
| CbOther.
Arguments CbNull {A}.
Arguments CbFunction {A} f.
Arguments CbOther {A}.

Inductive JsError :=
| Error (message : string)
| TypeError (message : string).

(** A sorter function, as far as the widget meets it: the array it returns
    for an array of items, what it leaves in the array it was given, and
    how the call ends when it is given a member that the cache object
    inherits instead of an array: with an error, or with an array. *)
Record Sorter := {
  returns : list string -> list string;
  leaves : list string -> list string;
  given_member : Js.Member -> JsError + list string
}.

Record Options := {
  minLength : Z;
  itemLimit : Z;
  throttle : Z;
  prefetch : bool;
  source : Source;
  contentElement : string;
  sorter : Callback Sorter;
  matcher : Callback (string -> string -> bool)
}.

(** What the widget does to the outside, in order: the events it fires, the
    calls of the configured callbacks and the accesses to the source. *)
Inductive Event :=
| FireInit
| FireShow
| FireReset
| FireSelect (item : option string) (index : Z)
| PreventDefault
| CallMatcher (item term : string)
| CallHighlight (item : string)
| ReadSource
| CallSource (args : list string)
| Request (url : string) (data : option string).

(** The bound input element. *)
Record Input := {
  tag : string;
  value : string;
  left : Z;
  top : Z;
  height : Z
}.

(** The dropdown element: shown or not, the markup of its rows, the row
    that carries the active class, and where it was put. *)
Record Element := {
  shown : bool;
  rows : list string;
  active : option Z;
  position : option (Z * Z)
}.

(** A timer of [window.setTimeout] that waits to run the lookup of [due]. *)
Record Timeout := {
  handle : nat;
  delay : Z;
  due : string
}.

Record TypeAhead := {
  input : Input;
  index : Z;
  items : list string;
  term : string;
  timer : option nat;
  options : Options;
  (* the cache object of the module base: its own properties *)
  cache : gmap string (list string);
  element : Element;
  (* the window's timers and the observations *)
  timeouts : list Timeout;
  next_timeout : nat;
  events : list Event
}.

(** A method either returns or throws; both leave a widget behind.  Or it
    goes on with values that this model has no types for, and [Beyond]
    holds what the model can say of the widget: a matcher is called with an
    item that is [undefined], such an item is kept, or the prototype of the
    cache object is replaced by a write under [__proto__]. *)
Inductive outcome :=
| Returned (w : TypeAhead)
| Thrown (e : JsError) (w : TypeAhead)
| Beyond (w : TypeAhead).

(** What reading [object[k]] finds: a property of the object's own, a
    member it inherits, or nothing. *)
Inductive Slot (A : Type) :=
| Stored (a : A)
| Inherited (m : Js.Member)
| Missing.
Arguments Stored {A} a.
Arguments Inherited {A} m.
Arguments Missing {A}.

Definition property {A} (own : gmap string A) (k : string) : Slot A :=
  match own !! k with
  | Some a => Stored a
  | None =>
      match Js.object_member k with
      | Some m => Inherited m
      | None => Missing
      end
  end.

Section Updates.
Variable w : TypeAhead.

Definition with_input v :=
  Build_TypeAhead v (index w) (items w) (term w) (timer w) (options w)
    (cache w) (element w) (timeouts w) (next_timeout w) (events w).
Definition with_index v :=
  Build_TypeAhead (input w) v (items w) (term w) (timer w) (options w)
    (cache w) (element w) (timeouts w) (next_timeout w) (events w).
Definition with_items v :=
  Build_TypeAhead (input w) (index w) v (term w) (timer w) (options w)
    (cache w) (element w) (timeouts w) (next_timeout w) (events w).
Definition with_term v :=
  Build_TypeAhead (input w) (index w) (items w) v (timer w) (options w)
    (cache w) (element w) (timeouts w) (next_timeout w) (events w).
Definition with_timer v :=
  Build_TypeAhead (input w) (index w) (items w) (term w) v (options w)
    (cache w) (element w) (timeouts w) (next_timeout w) (events w).
Definition with_options v :=
  Build_TypeAhead (input w) (index w) (items w) (term w) (timer w) v
    (cache w) (element w) (timeouts w) (next_timeout w) (events w).
Definition with_cache v :=
  Build_TypeAhead (input w) (index w) (items w) (term w) (timer w)
    (options w) v (element w) (timeouts w) (next_timeout w) (events w).
Definition with_element v :=
  Build_TypeAhead (input w) (index w) (items w) (term w) (timer w)
    (options w) (cache w) v (timeouts w) (next_timeout w) (events w).
Definition with_timeouts v n :=
  Build_TypeAhead (input w) (index w) (items w) (term w) (timer w)
    (options w) (cache w) (element w) v n (events w).
Definition observe (e : Event) :=
  Build_TypeAhead (input w) (index w) (items w) (term w) (timer w)
    (options w) (cache w) (element w) (timeouts w) (next_timeout w)
    (events w ++ [e]).
End Updates.

Definition set_value (v : string) (i : Input) : Input :=
  Build_Input (tag i) v (left i) (top i) (height i).

(** [input.set('value', v)]; the setter stores the empty string for an
    undefined value. *)
Definition input_set_value (v : option string) (w : TypeAhead) : TypeAhead :=
  with_input w (set_value (default "" v) (input w)).

Definition context_of (w : TypeAhead) : Context :=
  Build_Context (term w) (items w) (index w) (value (input w)).

(** ** The module base

    [hide], [isVisible] and [showElement] come from [Titon.Module]. *)

(** Modelled from the spec: the [hide] of the module base, the hide
    capability of the dropdown element; it touches nothing but the
    visibility. *)
Definition hide (w : TypeAhead) : TypeAhead :=
  with_element w
    (Build_Element false (rows (element w)) (active (element w))
       (position (element w))).

(** Modelled from the spec: the [isVisible] of the module base. *)
Definition isVisible (w : TypeAhead) : bool := shown (element w).

(** Modelled from the spec: the [showElement] of the module base. *)
Definition showElement (w : TypeAhead) : TypeAhead :=
  with_element w
    (Build_Element true (rows (element w)) (active (element w))
       (position (element w))).

(** ** Matching, sorting, highlighting *)

Definition quote : ascii := "034"%char.

Definition open_marker : string :=
  "<span class=" +:+ String quote "highlight" +:+ String quote ">".
Definition close_marker : string := "</span>".

(** The replacer of [highlight]. *)
Definition emphasize (m : string) : string :=
  open_marker +:+ m +:+ close_marker.

(** The loop of [highlight]: it runs while the sub-term is not empty.  A
    pattern that is not a literal does not arise from escaped text
    ([literal_escape] below) and leaves the item as it is. *)
Fixpoint highlight_terms (terms : list string) (item : string) : string :=
  match terms with
  | [] => item
  | t :: terms' =>
      if String.eqb t "" then item
      else match RegExp.literal t with
           | Some lit =>
               highlight_terms terms' (RegExp.replace lit emphasize item)
           | None => item
           end
  end.

Definition highlight (w : TypeAhead) (item : string) : string :=
  highlight_terms (Js.split_space (RegExp.escape (term w))) item.

(** [match]: the default matcher. *)
Definition match_ (item term : string) : bool :=
  0 <=? Js.indexOf (Js.toLowerCase item) (Js.toLowerCase term).

(** [sort]: the default sorter, [items.sort()], which orders strings by
    their code units, in the array it is given, and returns that array.  A
    member that the cache object inherits is a function or the prototype
    object and has no [sort] to call. *)
Definition sort : Sorter :=
  {| returns := merge_sort String.le;
     leaves := merge_sort String.le;
     given_member := fun _ => inl (TypeError "items.sort is not a function") |}.

(** ** Rendering *)

Definition set_rows (l : list string) (e : Element) : Element :=
  Build_Element (shown e) l None (position e).

Definition setPosition (x y : Z) (e : Element) : Element :=
  Build_Element (shown e) (rows e) (active e) (Some (x, y)).

Definition _position (w : TypeAhead) : TypeAhead :=
  if Z.of_nat (length (items w)) =? 0 then hide w
  else
    let i := input w in
    showElement
      (hide (with_element w (setPosition (left i) (top i + height i) (element w)))).

(** What [process] goes on with after the sorter, if there is one. *)
Definition apply_sorter (o : Options) (l : list string) : list string :=
  match sorter o with
  | CbFunction f => returns f l
  | _ => l
  end.

Definition set_source (src : Source) (o : Options) : Options :=
  {| minLength := minLength o; itemLimit := itemLimit o;
     throttle := throttle o; prefetch := prefetch o; source := src;
     contentElement := contentElement o; sorter := sorter o;
     matcher := matcher o |}.

(** Who else holds the array that [process] is handed: nobody (the response
    of a request, what a source function returned), the options as their
    [source], or the cache under a key. *)
Inductive Holder :=
| Unshared
| TheSource
| CacheEntry (k : string).

(** The array of the holder now has the contents [l]. *)
Definition put_back (h : Holder) (l : list string) (w : TypeAhead) : TypeAhead :=
  match h with
  | Unshared => w
  | TheSource => with_options w (set_source (SrcArray l) (options w))
  | CacheEntry k => with_cache w (<[k := l]> (cache w))
  end.

(** What the sorter, if there is one, leaves in the array it is given. *)
Definition left_by (o : Options) (l : list string) : list string :=
  match sorter o with
  | CbFunction f => leaves f l
  | _ => l
  end.

(** The call of the sorter as the holder of the array sees it. *)
Definition sorted_in_place (h : Holder) (raw : list string) (w : TypeAhead)
  : TypeAhead :=
  match sorter (options w) with
  | CbFunction f => put_back h (leaves f raw) w
  | _ => w
  end.

(** The loop of [process] over the sorted items: [c] counts the kept items
    and [ul] collects the markup of the list being built. *)
Fixpoint render (l : list string) (c : Z) (ul : list string) (w : TypeAhead)
  : list string * TypeAhead :=
  match l with
  | [] => (ul, w)
  | item :: l' =>
      let keep w1 :=
        let w2 := observe w1 (CallHighlight item) in
        render l' (c + 1) (ul ++ [highlight w2 item])
          (with_items w2 (items w2 ++ [item])) in
      if itemLimit (options w) <=? c then (ul, w)
      else match matcher (options w) with
           | CbFunction m =>
               let w1 := observe w (CallMatcher item (term w)) in
               if m item (term w) then keep w1 else render l' c ul w1
           | _ => keep w
           end
  end.

(** The end of [process], from [this.element.empty()] on, for the list
    [ul] that the loop built.  The dropdown is emptied first, so that no
    element is left in it for a content selector to find: with
    [contentElement] set, [getElement] gives [null] and the call of [grab]
    on it throws.  The write to the cache under [__proto__] would replace
    the prototype of the cache object. *)
Definition append_list (ul : list string) (w : TypeAhead) : outcome :=
  let w1 := with_element w (set_rows [] (element w)) in
  if negb (String.eqb (contentElement (options w1)) "")
  then Thrown (TypeError "this.element.getElement(...) is null") w1
  else
    let w2 := with_element w1 (set_rows ul (element w1)) in
    if String.eqb (term w2) "__proto__"
    then Beyond (observe (_position w2) FireShow)
    else
      let w3 := with_cache w2 (<[term w2 := items w2]> (cache w2)) in
      Returned (observe (_position w3) FireShow).

(** [process] from its loop on, for the list that the sorter returned. *)
Definition process_sorted (sorted : list string) (w : TypeAhead) : outcome :=
  let '(ul, w1) := render sorted 0 [] w in
  append_list ul w1.

(** [process], for an array [raw] of items that [h] holds. *)
Definition process (h : Holder) (raw : list string) (w : TypeAhead) : outcome :=
  if (Js.length (term w) =? 0) || (Z.of_nat (length raw) =? 0)
  then Returned (hide w)
  else
    let w1 := with_index (with_items w []) (-1) in
    process_sorted (apply_sorter (options w1) raw) (sorted_in_place h raw w1).

(** [process] for a member that the cache object inherits instead of an
    array, which is what the timer of [lookup] hands over for a term that
    names one.  The guard sees the [length] of the member.  A sorter
    function is called with the member; without one the loop runs over
    elements that are [undefined]: it breaks at once under a limit of 0 or
    less, and else the matcher is called, or [highlight] fails on the item
    unless its loop runs for no sub-term. *)
Definition process_member (m : Js.Member) (w : TypeAhead) : outcome :=
  if (Js.length (term w) =? 0) || (Js.member_length m =? 0)
  then Returned (hide w)
  else
    let w1 := with_index (with_items w []) (-1) in
    match sorter (options w1) with
    | CbFunction f =>
        match given_member f m with
        | inl e => Thrown e w1
        | inr sorted => process_sorted sorted w1
        end
    | _ =>
        if itemLimit (options w1) <=? 0 then process_sorted [] w1
        else
          match matcher (options w1) with
          | CbFunction _ => Beyond w1
          | _ =>
              match Js.split_space (RegExp.escape (term w1)) with
              | t :: _ =>
                  if String.eqb t "" then Beyond w1
                  else Thrown (TypeError "item is undefined") w1
              | [] => Beyond w1
              end
          end
    end.

(** ** Looking up *)

(** [f.attempt(args, bind)] of MooTools: the result of the call, or [null]
    when it throws. *)
Definition attempt (f : SourceFn) (args : list string) (this : Context) : Value :=
  match f args this with
  | Return v => v
  | Throw => Null
  end.

Definition InvalidSourceKind : JsError := Error "Invalid TypeAhead source type".
Definition NotAnInputElement : JsError :=
  Error "TypeAhead must be initialized on an input field".

(** The function that [lookup] hands to [setTimeout], for the term [t] it
    closes over. *)
Definition lookup_timeout (t : string) (w : TypeAhead) : outcome :=
  match property (cache w) t with
  | Stored cached => process (CacheEntry t) cached w
  | Inherited m => process_member m w
  | Missing =>
      match source (options w) with
      | SrcString url =>
          match property (cache w) url with
          | Stored cached => process (CacheEntry url) cached w
          | Inherited m => process_member m w
          | Missing => Returned (observe w (Request url (Some t)))
          end
      | SrcArray l => process TheSource l (observe w ReadSource)
      | SrcFunction f =>
          let response := attempt f [] (context_of w) in
          let w1 := observe w (CallSource []) in
          if truthy response then process Unshared (elements response) w1
          else Returned w1
      | SrcOther => Thrown InvalidSourceKind w
      end
  end.

(** [lookup]: remember the term and start a timer. *)
Definition lookup (t : string) (w : TypeAhead) : TypeAhead :=
  let w1 := with_term w t in
  let n := next_timeout w1 in
  with_timer
    (with_timeouts w1
       (timeouts w1 ++ [Build_Timeout n (throttle (options w1)) t]) (S n))
    (Some n).

(** [window.clearTimeout(id)]. *)
Definition clearTimeout (h : option nat) (w : TypeAhead) : TypeAhead :=
  match h with
  | Some n =>
      with_timeouts w
        (List.filter (fun t => negb (Nat.eqb (handle t) n)) (timeouts w))
        (next_timeout w)
  | None => w
  end.

(** The window runs the timer [n], if it is still waiting. *)
Definition run_timeout (n : nat) (w : TypeAhead) : option outcome :=
  match List.find (fun t => Nat.eqb (handle t) n) (timeouts w) with
  | Some t => Some (lookup_timeout (due t) (clearTimeout (Some n) w))
  | None => None
  end.


(** The request of the prefetch succeeds with [response]. *)
Definition prefetch_success (url : string) (response : list string)
    (w : TypeAhead) : outcome :=
  let w1 := with_items w response in
  if String.eqb url "__proto__" then Beyond w1
  else Returned (with_cache w1 (<[url := response]> (cache w1))).

(** ** Keys *)

Definition navigation_keys : list string := ["up"; "down"; "esc"; "tab"; "enter"].

Definition contains (l : list string) (s : string) : bool :=
  existsb (String.eqb s) l.

(** The end of [_cycle]: mark the active row and preview its item. *)
Definition select_row (its : list string) (w : TypeAhead) : outcome :=
  let e := element w in
  let w1 := with_element w (Build_Element (shown e) (rows e) None (position e)) in
  if 0 <=? index w1 then
    match Js.at_index (rows e) (index w1) with
    | Some _ =>
        let e1 := element w1 in
        Returned
          (input_set_value (Js.at_index its (index w1))
             (with_element w1
                (Build_Element (shown e1) (rows e1) (Some (index w1))
                   (position e1))))
    | None => Thrown (TypeError "rows[this.index] is undefined") w1
    end
  else Returned w1.

Definition _cycle (key : string) (w : TypeAhead) : outcome :=
  let its := items w in
  let len := Js.limit (Z.of_nat (length its)) 0 (itemLimit (options w)) in
  if (len =? 0) || negb (isVisible w) then Returned w
  else if String.eqb key "up" then
    let w1 := with_index w (index w - 1) in
    select_row its (if index w1 <? 0 then with_index w1 (len - 1) else w1)
  else if String.eqb key "down" then
    let w1 := with_index w (index w + 1) in
    select_row its (if len <=? index w1 then with_index w1 0 else w1)
  else if String.eqb key "tab" then
    let w1 := with_index (observe w PreventDefault) 0 in
    select_row its (hide (observe w1 (FireSelect (Js.at_index its 0) (index w1))))
  else if String.eqb key "enter" then
    select_row its
      (hide (observe w (FireSelect (Js.at_index its (index w)) (index w))))
  else if String.eqb key "esc" then
    let w1 := input_set_value (Some (term w)) (with_index w (-1)) in
    select_row its (hide (observe w1 FireReset))
  else Returned w.

Definition _lookup (key : string) (w : TypeAhead) : TypeAhead :=
  if contains navigation_keys key then w
  else
    let w1 := clearTimeout (timer w) w in
    let t := Js.trim (value (input w1)) in
    if Js.length t <? minLength (options w1) then hide w1 else lookup t w1.

(** ** Construction *)

Definition default_options : Options :=
  {| minLength := 1; itemLimit := 15; throttle := 250; prefetch := false;
     source := SrcArray []; contentElement := ""; sorter := CbNull;
     matcher := CbNull |}.

Definition with_callbacks (o : Options) : Options :=
  {| minLength := minLength o; itemLimit := itemLimit o;
     throttle := throttle o; prefetch := prefetch o; source := source o;
     contentElement := contentElement o;
     sorter := match sorter o with CbNull => CbFunction sort | s => s end;
     matcher := match matcher o with CbNull => CbFunction match_ | m => m end |}.

(** [initialize], for the input element and the merged options; the
    dropdown starts hidden and empty. *)
Definition initialize (i : Input) (o : Options) : outcome :=
  let w :=
    {| input := i; index := -1; items := []; term := ""; timer := None;
       options := o; cache := ∅;
       element := Build_Element false [] None None;
       timeouts := []; next_timeout := O; events := [] |} in
  if negb (String.eqb (tag i) "input") then Thrown NotAnInputElement w
  else
    let w1 := with_options w (with_callbacks o) in
    let w2 :=
      match prefetch o, source o with
      | true, SrcString url => observe w1 (Request url None)
      | _, _ => w1
      end in
    Returned (observe w2 FireInit).

(** ** Notions the properties are stated with *)

(** Does the item pass the configured matcher?  Without a matcher function
    every item passes. *)
Definition matches (o : Options) (t item : string) : bool :=
  match matcher o with
  | CbFunction m => m item t
  | _ => true
  end.

Definition has_matcher (o : Options) : bool :=
  match matcher o with
  | CbFunction _ => true
  | _ => false
  end.

(** The items handed to the matcher and to the highlighter, in order. *)
Definition passed_to_matcher (evs : list Event) : list string :=
  flat_map (fun e => match e with CallMatcher i _ => [i] | _ => [] end) evs.

Definition passed_to_highlighter (evs : list Event) : list string :=
  flat_map (fun e => match e with CallHighlight i => [i] | _ => [] end) evs.

(** The accesses to the configured source among the observations. *)
Definition source_accesses (evs : list Event) : list Event :=
  List.filter
    (fun e => match e with
              | ReadSource | CallSource _ | Request _ _ => true
              | _ => false
              end) evs.

(** The part of the sorted list that the loop of [process] looks at when it
    has already kept [c] items. *)
Fixpoint evaluated (o : Options) (t : string) (l : list string) (c : Z)
  : list string :=
  match l with
  | [] => []
  | item :: l' =>
      if itemLimit o <=? c then []
      else item :: evaluated o t l' (if matches o t item then c + 1 else c)
  end.

(** The observations the loop leaves for the items it looks at. *)
Definition calls (o : Options) (t : string) (seen : list string) : list Event :=
  flat_map
    (fun item =>
       (if has_matcher o then [CallMatcher item t] else []) ++
       (if matches o t item then [CallHighlight item] else []))%list
    seen.

(** Removing the emphasis markers from a markup, from left to right:
    [skip] counts the characters of a marker still to be dropped. *)
Fixpoint strip_from (skip : nat) (s : string) : string :=
  match s with
  | EmptyString => EmptyString
  | String c s' =>
      match skip with
      | S k => strip_from k s'
      | O =>
          if String.prefix open_marker s
          then strip_from (String.length open_marker - 1) s'
          else if String.prefix close_marker s
          then strip_from (String.length close_marker - 1) s'
          else String c (strip_from O s')
      end
  end.

Definition strip_markers (s : string) : string := strip_from O s.

(** The widget after the loop has kept [kept] and left the observations
    [evs]. *)
Definition rendered_into (w : TypeAhead) (kept : list string)
    (evs : list Event) : TypeAhead :=
  Build_TypeAhead (input w) (index w) (items w ++ kept) (term w) (timer w)
    (options w) (cache w) (element w) (timeouts w) (next_timeout w)
    (events w ++ evs).

(** ** Sample configurations *)

Definition sample_input : Input := Build_Input "input" "" 10 20 30.

Definition configure (src : Source) (limit least : Z) : Options :=
  {| minLength := least; itemLimit := limit; throttle := 250;
     prefetch := false; source := src; contentElement := "";
     sorter := CbNull; matcher := CbNull |}.

Definition widget_of (r : outcome) : TypeAhead :=
  match r with
  | Returned w | Thrown _ w | Beyond w => w
  end.

Definition error_of (r : outcome) : option JsError :=
  match r with
  | Thrown e _ => Some e
  | Returned _ | Beyond _ => None
  end.

(** A widget constructed over the sample input. *)
Definition fresh (o : Options) : TypeAhead := widget_of (initialize sample_input o).

(** The user leaves [s] in the input and releases an ordinary key. *)
Definition typed (s : string) (w : TypeAhead) : TypeAhead :=
  _lookup "a" (with_input w (set_value s (input w))).

(** The timer [n] runs. *)
Definition after_timeout (n : nat) (w : TypeAhead) : TypeAhead :=
  match run_timeout n w with
  | Some r => widget_of r
  | None => w
  end.

Definition pressed (key : string) (w : TypeAhead) : TypeAhead :=
  widget_of (_cycle key w).

(** Scenario C: three matching items under a limit of two. *)
Definition scenario_C : TypeAhead :=
  with_term (fresh (configure (SrcArray ["aa"; "ab"; "ac"]) 2 1)) "a".

(** The dropdown is open over [n] rendered items: it is visible and the
    items, one row each, are within the limit. *)
Record open_over (n : nat) (w : TypeAhead) : Prop := {
  oo_visible : isVisible w = true;
  oo_items : length (items w) = n;
  oo_rows : length (rows (element w)) = n;
  oo_some : (0 < n)%nat;
  oo_limit : Z.of_nat n <= itemLimit (options w)
}.

(** Scenario A: three items, "ap" typed, and the timer run. *)
Definition scenario_A : TypeAhead :=
  after_timeout 0
    (typed "ap" (fresh (configure (SrcArray ["apple"; "banana"; "apricot"]) 15 1))).

(** Scenario C with its source out of order. *)
Definition scenario_C_unsorted : TypeAhead :=
  with_term (fresh (configure (SrcArray ["ac"; "aa"; "ab"]) 2 1)) "a".


(** Scenario C, rendered. *)
Definition scenario_C_open : TypeAhead :=
  widget_of (process Unshared ["aa"; "ab"; "ac"] scenario_C).

(** Scenario D: "ban" typed and looked up, then two times down. *)
Definition scenario_D : TypeAhead :=
  pressed "down"
    (pressed "down"
       (after_timeout 0
          (typed "ban"
             (fresh (configure (SrcArray ["banana"; "bandana"; "band"]) 15 1))))).

(** The guard of [_cycle]: there is something to cycle through and the
    dropdown is visible. *)
Definition cycling (w : TypeAhead) : Prop :=
  Js.limit (Z.of_nat (length (items w))) 0 (itemLimit (options w)) <> 0 /\
  isVisible w = true.

(** Scenario B: a minimum length of three, "app" typed and then cut back
    to "ap" before the timer ran. *)
Definition scenario_B : TypeAhead :=
  let w := typed "app" (fresh (configure (SrcArray ["apple"]) 15 3)) in
  with_input w (set_value "ap" (input w)).


(** A source function that answers from its first argument. *)
Definition echo_source : SourceFn :=
  fun args _ =>
    match args with
    | t :: _ => Return (Array [t])
    | [] => Return Undefined
    end.

(** A source function that knows two items for "a" and none otherwise. *)
Definition narrow_source : SourceFn :=
  fun _ this =>
    if String.eqb (this_term this) "a" then Return (Array ["aa"; "ab"])
    else Return (Array []).

(** A widget over [narrow_source] with the lookup of "a" under way. *)
Definition narrow_widget : TypeAhead :=
  typed "a" (fresh (configure (SrcFunction narrow_source) 15 1)).

(** One item, looked up for "zz", then for "a", then for "zz" again. *)
Definition one_item : TypeAhead := fresh (configure (SrcArray ["aa"]) 15 1).
Definition first_zz : TypeAhead := after_timeout 0 (typed "zz" one_item).
Definition then_a : TypeAhead := after_timeout 1 (typed "a" first_zz).
Definition second_zz : TypeAhead := after_timeout 2 (typed "zz" then_a).

(** A sorter that returns a reversed copy, as
    [function (items) { return items.slice().reverse(); }] does; a function
    has no [slice]. *)
Definition reverse_copy : Sorter :=
  {| returns := @rev string;
     leaves := fun l => l;
     given_member := fun _ => inl (TypeError "items.slice is not a function") |}.

(** Two items under a sorter that reverses, looked up for "a" twice. *)
Definition reversing : Options :=
  {| minLength := 1; itemLimit := 15; throttle := 250; prefetch := false;
     source := SrcArray ["aa"; "ab"]; contentElement := "";
     sorter := CbFunction reverse_copy; matcher := CbNull |}.
Definition first_a : TypeAhead := after_timeout 0 (typed "a" (fresh reversing)).
Definition second_a : TypeAhead := after_timeout 1 (typed "a" first_a).

(** ** Markup as tokens

    A markup that [highlight] produces is read as a sequence of tokens: the
    characters of the item and the two markers. *)

Inductive token :=
| Ch (c : ascii)
| Open
| Close.

Fixpoint markup (toks : list token) : string :=
  match toks with
  | [] => EmptyString
  | Ch c :: toks' => String c (markup toks')
  | Open :: toks' => open_marker +:+ markup toks'
  | Close :: toks' => close_marker +:+ markup toks'
  end.

Fixpoint text (toks : list token) : string :=
  match toks with
  | [] => EmptyString
  | Ch c :: toks' => String c (text toks')
  | _ :: toks' => text toks'
  end.

Fixpoint chars (s : string) : list token :=
  match s with
  | EmptyString => []
  | String c s' => Ch c :: chars s'
  end.

Definition is_char (k : token) : bool :=
  match k with
  | Ch _ => true
  | _ => false
  end.

(** The sub-terms that the loop of [highlight] runs through: the pieces of
    the term up to the first empty one. *)
Fixpoint leading (pieces : list string) : list string :=
  match pieces with
  | [] => []
  | p :: pieces' => if String.eqb p "" then [] else p :: leading pieces'
  end.

Definition sub_terms (t : string) : list string := leading (Js.split_space t).

Fixpoint all_units (f : ascii -> bool) (s : string) : bool :=
  match s with
  | EmptyString => true
  | String c s' => f c && all_units f s'
  end.

(** No ["<"] in the string. *)
Definition no_open_angle (s : string) : bool :=
  all_units (fun c => negb (Ascii.eqb c "<")) s.

(** Neither ["<"] nor [">"] in the string. *)
Definition angle_free (s : string) : bool :=
  all_units (fun c => negb (Ascii.eqb c "<") && negb (Ascii.eqb c ">")) s.

(** Does the literal match somewhere in [s], ignoring case? *)
Fixpoint occurs (lit s : string) : bool :=
  RegExp.matches_at lit s ||
  match s with
  | EmptyString => false
  | String _ s' => occurs lit s'
  end.

(** A sub-term that cannot match inside a marker or across its ends. *)
Definition marker_free (lit : string) : bool :=
  angle_free lit && negb (occurs lit open_marker) &&
  negb (occurs lit close_marker).

(** What a render that passes the guard leaves behind when it returns,
    for an array that [h] holds. *)
Record render_result (h : Holder) (raw : list string) (w w' : TypeAhead)
  : Prop := {
  rr_items :
    items w' =
    List.filter (matches (options w) (term w))
      (evaluated (options w) (term w) (apply_sorter (options w) raw) 0);
  rr_index : index w' = -1;
  rr_events :
    events w' =
    events w ++
    calls (options w) (term w)
      (evaluated (options w) (term w) (apply_sorter (options w) raw) 0) ++
    [FireShow];
  rr_cache :
    cache w' = <[term w := items w']> (cache (sorted_in_place h raw w));
  rr_rows : rows (element w') = map (highlight w) (items w');
  rr_shown : shown (element w') = negb (Z.of_nat (length (items w')) =? 0);
  rr_active : active (element w') = None;
  rr_term : term w' = term w;
  rr_options : options w' = options (sorted_in_place h raw w);
  rr_input : input w' = input w;
  rr_timer : timer w' = timer w;
  rr_timeouts : timeouts w' = timeouts w;
  rr_next : next_timeout w' = next_timeout w
}.

(** What the loop of a render that passes the guard leaves behind, however
    the render ends: [show] is fired unless the content element stops it. *)
Record loop_result (raw : list string) (w w' : TypeAhead) : Prop := {
  lr_items :
    items w' =
    List.filter (matches (options w) (term w))
      (evaluated (options w) (term w) (apply_sorter (options w) raw) 0);
  lr_index : index w' = -1;
  lr_events :
    events w' =
    events w ++
    calls (options w) (term w)
      (evaluated (options w) (term w) (apply_sorter (options w) raw) 0) ++
    (if String.eqb (contentElement (options w)) "" then [FireShow] else []);
  lr_term : term w' = term w;
  lr_input : input w' = input w;
  lr_timer : timer w' = timer w;
  lr_timeouts : timeouts w' = timeouts w;
  lr_next : next_timeout w' = next_timeout w
}.

(** ** The rest of the module *)

(** [_toggleEvents] binds [_lookup] to keyup and [_cycle] to keydown: a key
    that goes down and up runs the one and then the other, and an error
    thrown by the first handler does not keep the second from running. *)
Definition keystroke (key : string) (w : TypeAhead) : outcome :=
  match _cycle key w with
  | Returned w1 => Returned (_lookup key w1)
  | Thrown e w1 => Thrown e (_lookup key w1)
  | Beyond w1 => Beyond (_lookup key w1)
  end.

(** [Titon.TypeAhead.factory] over the registry [instances], the object that
    holds the instances by id; [i] is the element that [id] names.  It
    gives back what the registry answers under the id, which is an instance
    or a member that the registry inherits, or else the new instance or the
    error of the constructor; and the registry. *)
Definition factory (id : string) (i : Input) (o : Options)
    (instances : gmap string TypeAhead)
  : (JsError + (Js.Member + TypeAhead)) * gmap string TypeAhead :=
  match property instances id with
  | Stored ta => (inr (inr ta), instances)
  | Inherited m => (inr (inl m), instances)
  | Missing =>
      let made := initialize i o in
      match error_of made with
      | Some e => (inl e, instances)
      | None => (inr (inr (widget_of made)), <[id := widget_of made]> instances)
      end
  end.

(** At most one timer waits, and it is the one the widget remembers. *)
Definition debounced (w : TypeAhead) : Prop :=
  timeouts w = [] \/ exists t, timeouts w = [t] /\ timer w = Some (handle t).

(** A string source with its list fetched ahead: the widget as the
    constructor leaves it, and after the response came. *)
Definition prefetch_options : Options :=
  {| minLength := 1; itemLimit := 15; throttle := 250; prefetch := true;
     source := SrcString "/items"; contentElement := "";
     sorter := CbNull; matcher := CbNull |}.

Definition prefetching : TypeAhead := fresh prefetch_options.

Definition prefetched : TypeAhead :=
  widget_of (prefetch_success "/items" ["pear"; "apple"; "peach"] prefetching).

(** Three items, and " ap " left in the input with nothing looked up yet. *)
Definition about_to_type : TypeAhead :=
  let w := fresh (configure (SrcArray ["apple"; "banana"; "apricot"]) 15 1) in
  with_input w (set_value " ap " (input w)).

(** An element that is no input. *)
Definition sample_div : Input := Build_Input "div" "" 10 20 30.


(** * Properties *)

(** Closed facts about sample widgets hold by evaluation. *)
Ltac by_evaluation :=
  vm_compute; repeat split; solve [reflexivity | discriminate | lia].

(** Projections of updated widgets compute. *)
Ltac simpl_widget :=
  cbn [hide showElement isVisible input_set_value set_rows setPosition
       set_value rendered_into observe with_input with_index with_items
       with_term with_timer with_options with_cache with_element
       with_timeouts input index items term timer options cache element
       timeouts next_timeout events shown rows active position tag value
       left top height widget_of error_of set_source minLength itemLimit
       throttle prefetch source contentElement sorter matcher] in *.

(** ** The render loop *)

Section RenderLoop.
Variable o : Options.
Variable t : string.

Lemma evaluated_prefix l c :
  exists unseen, l = (evaluated o t l c ++ unseen)%list.
Proof.
  revert c; induction l as [|item l IH]; intros c; simpl.
  - exists []; reflexivity.
  - destruct (itemLimit o <=? c).
    + exists (item :: l); reflexivity.
    + destruct (IH (if matches o t item then c + 1 else c)) as [u Hu].
      exists u. simpl. congruence.
Qed.

Lemma evaluated_kept l c :
  c <= itemLimit o ->
  List.filter (matches o t) (evaluated o t l c) =
  firstn (Z.to_nat (itemLimit o - c)) (List.filter (matches o t) l).
Proof.
  revert c; induction l as [|item l IH]; intros c Hc; simpl.
  - now rewrite firstn_nil.
  - destruct (Z.leb_spec (itemLimit o) c) as [Hle|Hlt].
    + replace (itemLimit o - c) with 0 by lia. reflexivity.
    + simpl. destruct (matches o t item) eqn:Hm.
      * replace (Z.to_nat (itemLimit o - c))
          with (S (Z.to_nat (itemLimit o - (c + 1)))) by lia.
        simpl. f_equal. apply IH. lia.
      * apply IH. lia.
Qed.

Lemma evaluated_bound l c :
  c <= itemLimit o ->
  c + Z.of_nat (length (List.filter (matches o t) (evaluated o t l c))) <= itemLimit o.
Proof.
  revert c; induction l as [|item l IH]; intros c Hc; simpl; [lia|].
  destruct (Z.leb_spec (itemLimit o) c) as [Hle|Hlt]; simpl; [lia|].
  destruct (matches o t item) eqn:Hm; simpl.
  - specialize (IH (c + 1)). lia.
  - specialize (IH c). lia.
Qed.

(** When the loop leaves items unseen, the limit is reached, and the last
    item it looked at is the one that reached it. *)
Lemma evaluated_stops l c unseen :
  c <= itemLimit o ->
  l = (evaluated o t l c ++ unseen)%list -> unseen <> [] ->
  c + Z.of_nat (length (List.filter (matches o t) (evaluated o t l c))) = itemLimit o
  /\ (c < itemLimit o ->
      exists pre x, evaluated o t l c = (pre ++ [x])%list /\ matches o t x = true).
Proof.
  revert c; induction l as [|item l IH]; intros c Hc; simpl.
  - intros <-. congruence.
  - destruct (Z.leb_spec (itemLimit o) c) as [Hle|Hlt]; simpl.
    + intros _ _. split; lia.
    + intros Heq Hne. injection Heq as Heq.
      destruct (matches o t item) eqn:Hm; simpl.
      * destruct (IH (c + 1) ltac:(lia) Heq Hne) as [Hn Hlast].
        split; [lia|]. intros _.
        destruct (Z.eq_dec (c + 1) (itemLimit o)) as [He|He].
        -- exists [], item. split; [|exact Hm].
           destruct l as [|y l]; simpl; [reflexivity|].
           destruct (Z.leb_spec (itemLimit o) (c + 1)); [reflexivity|lia].
        -- destruct (Hlast ltac:(lia)) as (pre & x & Hp & Hx).
           exists (item :: pre), x. rewrite Hp. split; [reflexivity|exact Hx].
      * destruct (IH c ltac:(lia) Heq Hne) as [Hn Hlast].
        split; [lia|]. intros _.
        destruct (Hlast Hlt) as (pre & x & Hp & Hx).
        exists (item :: pre), x. rewrite Hp. split; [reflexivity|exact Hx].
Qed.

Lemma calls_matcher seen :
  passed_to_matcher (calls o t seen) = if has_matcher o then seen else [].
Proof.
  unfold calls. induction seen as [|x seen IH]; simpl.
  - now destruct (has_matcher o).
  - unfold passed_to_matcher in *. rewrite flat_map_app, IH.
    destruct (has_matcher o), (matches o t x); reflexivity.
Qed.

Lemma calls_highlighter seen :
  passed_to_highlighter (calls o t seen) = List.filter (matches o t) seen.
Proof.
  unfold calls. induction seen as [|x seen IH]; simpl; [reflexivity|].
  unfold passed_to_highlighter in *. rewrite flat_map_app, IH.
  destruct (has_matcher o), (matches o t x); reflexivity.
Qed.

End RenderLoop.


Lemma rendered_into_nil w : rendered_into w [] [] = w.
Proof. destruct w; unfold rendered_into; simpl. now rewrite !app_nil_r. Qed.

Lemma rendered_into_more w k1 e1 k2 e2 :
  rendered_into (rendered_into w k1 e1) k2 e2 =
  rendered_into w (k1 ++ k2) (e1 ++ e2).
Proof. unfold rendered_into; simpl. now rewrite !app_assoc. Qed.

Lemma render_cons item l c ul w :
  render (item :: l) c ul w =
  if itemLimit (options w) <=? c then (ul, w)
  else
    let asked :=
      if has_matcher (options w) then [CallMatcher item (term w)] else [] in
    if matches (options w) (term w) item
    then render l (c + 1) (ul ++ [highlight w item])
           (rendered_into w [item] (asked ++ [CallHighlight item]))
    else render l c ul (rendered_into w [] asked).
Proof.
  simpl. destruct (itemLimit (options w) <=? c); [reflexivity|].
  unfold matches, has_matcher.
  destruct (matcher (options w)) as [|m|]; [|destruct (m item (term w))|];
    f_equal; destruct w; unfold rendered_into, with_items, observe, highlight;
    simpl; rewrite ?app_nil_r, <- ?app_assoc; reflexivity.
Qed.

Lemma render_spec l : forall c ul w,
  render l c ul w =
  (ul ++ map (highlight w)
           (List.filter (matches (options w) (term w))
              (evaluated (options w) (term w) l c)),
   rendered_into w
     (List.filter (matches (options w) (term w))
        (evaluated (options w) (term w) l c))
     (calls (options w) (term w) (evaluated (options w) (term w) l c))).
Proof.
  induction l as [|item l IH]; intros c ul w.
  - simpl. now rewrite app_nil_r, rendered_into_nil.
  - rewrite render_cons. cbn [evaluated].
    destruct (itemLimit (options w) <=? c).
    + simpl. now rewrite app_nil_r, rendered_into_nil.
    + cbn zeta. cbn [List.filter calls flat_map].
      destruct (matches (options w) (term w) item) eqn:Hk; rewrite IH;
        rewrite rendered_into_more; cbn [rendered_into options term];
        fold (calls (options w) (term w));
        rewrite ?app_nil_r; cbn [map]; rewrite <- ?app_assoc; reflexivity.
Qed.

Lemma length_zero_empty s : (Js.length s =? 0) = true <-> s = "".
Proof.
  unfold Js.length. split.
  - destruct s; [reflexivity|]. intros H. apply Z.eqb_eq in H. simpl in H. lia.
  - now intros ->.
Qed.

Lemma filter_sorted {A} (R : relation A) (f : A -> bool) l :
  StronglySorted R l -> StronglySorted R (List.filter f l).
Proof.
  induction 1 as [|x l Hs IH Hx]; simpl; [constructor|].
  destruct (f x); [|exact IH]. constructor; [exact IH|].
  apply List.Forall_forall. intros y Hy. apply filter_In in Hy as [Hy _].
  rewrite List.Forall_forall in Hx. now apply Hx.
Qed.

Lemma process_guard (raw : list string) w :
  term w <> "" -> raw <> [] ->
  (Js.length (term w) =? 0) || (Z.of_nat (length raw) =? 0) = false.
Proof.
  intros Ht Hr. apply orb_false_iff. split.
  - destruct (Js.length (term w) =? 0) eqn:E; [|reflexivity].
    now apply length_zero_empty in E.
  - destruct raw; [congruence|]. reflexivity.
Qed.

(** The call of the sorter changes the array it is given and nothing else
    of the widget. *)
Lemma sorted_in_place_frame h raw w :
  input (sorted_in_place h raw w) = input w /\
  index (sorted_in_place h raw w) = index w /\
  items (sorted_in_place h raw w) = items w /\
  term (sorted_in_place h raw w) = term w /\
  timer (sorted_in_place h raw w) = timer w /\
  element (sorted_in_place h raw w) = element w /\
  timeouts (sorted_in_place h raw w) = timeouts w /\
  next_timeout (sorted_in_place h raw w) = next_timeout w /\
  events (sorted_in_place h raw w) = events w /\
  matcher (options (sorted_in_place h raw w)) = matcher (options w) /\
  itemLimit (options (sorted_in_place h raw w)) = itemLimit (options w) /\
  sorter (options (sorted_in_place h raw w)) = sorter (options w) /\
  contentElement (options (sorted_in_place h raw w)) = contentElement (options w).
Proof.
  unfold sorted_in_place.
  destruct (sorter (options w)) as [|f|] eqn:E; [|destruct h|];
    cbn [put_back]; simpl_widget; rewrite ?E; repeat split.
Qed.

Lemma sorted_in_place_reset h raw w its i :
  cache (sorted_in_place h raw (with_index (with_items w its) i)) =
    cache (sorted_in_place h raw w) /\
  options (sorted_in_place h raw (with_index (with_items w its) i)) =
    options (sorted_in_place h raw w).
Proof.
  unfold sorted_in_place. simpl_widget.
  destruct (sorter (options w)); [|destruct h|]; split; reflexivity.
Qed.

Lemma sorted_in_place_unshared raw w : sorted_in_place Unshared raw w = w.
Proof. unfold sorted_in_place. now destruct (sorter (options w)). Qed.

Lemma matches_ext o o' t :
  matcher o' = matcher o -> matches o' t = matches o t.
Proof. intros E. unfold matches. now rewrite E. Qed.

Lemma evaluated_ext o o' t l c :
  matcher o' = matcher o -> itemLimit o' = itemLimit o ->
  evaluated o' t l c = evaluated o t l c.
Proof.
  intros Em El. revert c; induction l as [|x l IH]; intros c; simpl;
    [reflexivity|].
  rewrite El, (matches_ext o o' t Em). destruct (itemLimit o <=? c);
    [reflexivity|]. now rewrite IH.
Qed.

Lemma calls_ext o o' t l :
  matcher o' = matcher o -> calls o' t l = calls o t l.
Proof.
  intros E. unfold calls, has_matcher. now rewrite E, (matches_ext o o' t E).
Qed.

(** A render that passes the guard, as the loop leaves it to the end of
    [process]. *)
Lemma process_loop h raw w :
  term w <> "" -> raw <> [] ->
  process h raw w =
  append_list
    (map (highlight w)
       (List.filter (matches (options w) (term w))
          (evaluated (options w) (term w) (apply_sorter (options w) raw) 0)))
    (rendered_into
       (sorted_in_place h raw (with_index (with_items w []) (-1)))
       (List.filter (matches (options w) (term w))
          (evaluated (options w) (term w) (apply_sorter (options w) raw) 0))
       (calls (options w) (term w)
          (evaluated (options w) (term w) (apply_sorter (options w) raw) 0))).
Proof.
  intros Ht Hr. unfold process, process_sorted.
  rewrite (process_guard raw w Ht Hr). cbn zeta. rewrite render_spec.
  destruct (sorted_in_place_frame h raw (with_index (with_items w []) (-1)))
    as (_ & _ & _ & Hterm & _ & _ & _ & _ & _ & Hm & Hl & _ & _).
  simpl_widget. rewrite Hterm.
  rewrite (evaluated_ext _ _ _ _ _ Hm Hl), (matches_ext _ _ _ Hm),
    (calls_ext _ _ _ _ Hm).
  cbn [app]. do 2 f_equal.
  unfold highlight. now rewrite Hterm.
Qed.

(** The end of [process] when nothing stops it. *)
Lemma append_list_returns ul w :
  contentElement (options w) = "" -> term w <> "__proto__" ->
  append_list ul w =
  Returned
    (observe
       (_position
          (with_cache
             (with_element w
                (Build_Element (shown (element w)) ul None
                   (position (element w))))
             (<[term w := items w]> (cache w))))
       FireShow).
Proof.
  intros Hc Hp. unfold append_list. simpl_widget. rewrite Hc.
  cbn [String.eqb negb].
  destruct (String.eqb_spec (term w) "__proto__"); [contradiction|reflexivity].
Qed.


(** However it ends, the end of [process] keeps what the loop collected
    and fires [show] unless the content element stops it. *)
Lemma append_list_keeps ul w :
  items (widget_of (append_list ul w)) = items w /\
  index (widget_of (append_list ul w)) = index w /\
  events (widget_of (append_list ul w)) =
    events w ++
    (if String.eqb (contentElement (options w)) "" then [FireShow] else []) /\
  term (widget_of (append_list ul w)) = term w /\
  input (widget_of (append_list ul w)) = input w /\
  timer (widget_of (append_list ul w)) = timer w /\
  timeouts (widget_of (append_list ul w)) = timeouts w /\
  next_timeout (widget_of (append_list ul w)) = next_timeout w.
Proof.
  unfold append_list, _position. simpl_widget.
  destruct (String.eqb (contentElement (options w)) ""); cbn [negb];
    [|simpl_widget; rewrite app_nil_r; repeat split].
  destruct (String.eqb (term w) "__proto__");
    destruct (Z.of_nat (length (items w)) =? 0); simpl_widget; repeat split.
Qed.

Lemma process_keeps h raw w :
  term w <> "" -> raw <> [] ->
  loop_result raw w (widget_of (process h raw w)).
Proof.
  intros Ht Hr. rewrite (process_loop h raw w Ht Hr).
  set (kept := List.filter _ _). set (evs := calls _ _ _).
  destruct (sorted_in_place_frame h raw (with_index (with_items w []) (-1)))
    as (Hi & Hx & Hit & Hterm & Htm & _ & Hts & Hn & He & _ & _ & _ & Hc).
  destruct (append_list_keeps (map (highlight w) kept)
              (rendered_into
                 (sorted_in_place h raw (with_index (with_items w []) (-1)))
                 kept evs))
    as (K1 & K2 & K3 & K4 & K5 & K6 & K7 & K8).
  simpl_widget.
  constructor; rewrite ?K1, ?K2, ?K3, ?K4, ?K5, ?K6, ?K7, ?K8, ?Hi, ?Hx, ?Hit,
    ?Hterm, ?Htm, ?Hts, ?Hn, ?He, ?Hc; simpl_widget; try reflexivity.
  now rewrite <- app_assoc.
Qed.

Lemma process_renders h raw w :
  term w <> "" -> raw <> [] ->
  contentElement (options w) = "" -> term w <> "__proto__" ->
  exists w', process h raw w = Returned w' /\ render_result h raw w w'.
Proof.
  intros Ht Hr Hc Hp. rewrite (process_loop h raw w Ht Hr).
  set (kept := List.filter _ _). set (evs := calls _ _ _).
  destruct (sorted_in_place_frame h raw (with_index (with_items w []) (-1)))
    as (Hi & Hx & Hit & Hterm & Htm & Hel & Hts & Hn & He & _ & _ & _ & Hce).
  rewrite append_list_returns; simpl_widget;
    [|now rewrite Hce|now rewrite Hterm].
  eexists. split; [reflexivity|].
  destruct (sorted_in_place_reset h raw w [] (-1)) as [Hca Hop].
  unfold _position. simpl_widget. rewrite Hit. cbn [app].
  destruct (Z.of_nat (length kept) =? 0) eqn:E;
    constructor; simpl_widget; cbn [app];
    rewrite ?Hit, ?E, ?Hi, ?Hx, ?Hterm, ?Htm, ?Hts, ?Hn, ?He, ?Hca, ?Hop;
    cbn [app]; rewrite ?E; try reflexivity;
    try (now rewrite <- app_assoc).
Qed.

(** C1.  For a non-empty term and a non-empty raw list (and a limit that is
    not negative), [process] looks at a prefix [seen] of the list that the
    sorter returned and at nothing after it: the matcher is called on the
    items of [seen] and the highlighter on the kept ones only, the kept
    items are the matching items of the sorted list in order, cut at
    [itemLimit], and when items are left unseen the limit is reached, by the
    last item looked at.  The list looked at is the one the configured
    sorter returns; under the default sorter it is the raw list in
    ascending order, and so are the kept items.  This holds whoever holds
    the raw list and however the render ends after the loop. *)
Theorem process_keeps_until_limit (h : Holder) (w : TypeAhead)
    (raw : list string) :
  term w <> "" -> raw <> [] -> 0 <= itemLimit (options w) ->
  exists seen unseen evs,
    apply_sorter (options w) raw = seen ++ unseen /\
    events (widget_of (process h raw w)) =
      events w ++ evs ++
      (if String.eqb (contentElement (options w)) "" then [FireShow] else []) /\
    passed_to_matcher evs = (if has_matcher (options w) then seen else []) /\
    passed_to_highlighter evs = items (widget_of (process h raw w)) /\
    items (widget_of (process h raw w)) =
      List.filter (matches (options w) (term w)) seen /\
    items (widget_of (process h raw w)) =
      firstn (Z.to_nat (itemLimit (options w)))
        (List.filter (matches (options w) (term w))
           (apply_sorter (options w) raw)) /\
    Z.of_nat (length (items (widget_of (process h raw w)))) <=
      itemLimit (options w) /\
    (unseen <> [] ->
     Z.of_nat (length (items (widget_of (process h raw w)))) =
       itemLimit (options w) /\
     (0 < itemLimit (options w) ->
      exists pre x, seen = pre ++ [x] /\ matches (options w) (term w) x = true)) /\
    (forall f, sorter (options w) = CbFunction f -> seen ++ unseen = returns f raw) /\
    (sorter (options w) = CbFunction sort ->
     Permutation raw (seen ++ unseen) /\
     StronglySorted String.le (seen ++ unseen) /\
     StronglySorted String.le (items (widget_of (process h raw w)))).
Proof.
  intros Ht Hr Hlim.
  destruct (process_keeps h raw w Ht Hr) as [Hi _ He _ _ _ _ _].
  set (o := options w) in *. set (t := term w) in *.
  set (sorted := apply_sorter o raw) in *.
  destruct (evaluated_prefix o t sorted 0) as [unseen Hu].
  exists (evaluated o t sorted 0), unseen, (calls o t (evaluated o t sorted 0)).
  rewrite Hi, <- Hu. repeat split.
  - exact He.
  - apply calls_matcher.
  - apply calls_highlighter.
  - rewrite evaluated_kept by exact Hlim. now rewrite Z.sub_0_r.
  - pose proof (evaluated_bound o t sorted 0 Hlim). lia.
  - destruct (evaluated_stops o t sorted 0 unseen Hlim Hu H). lia.
  - intros Hpos. destruct (evaluated_stops o t sorted 0 unseen Hlim Hu H) as [_ Hl].
    exact (Hl Hpos).
  - intros f Hf. unfold sorted, apply_sorter. fold o. now rewrite Hf.
  - unfold sorted, apply_sorter. fold o. rewrite H. simpl.
    symmetry. apply merge_sort_Permutation.
  - unfold sorted, apply_sorter. fold o. rewrite H. simpl.
    apply StronglySorted_merge_sort; apply _.
  - apply filter_sorted.
    assert (Hso : StronglySorted String.le sorted).
    { unfold sorted, apply_sorter. fold o. rewrite H. simpl.
      apply StronglySorted_merge_sort; apply _. }
    rewrite Hu in Hso. now apply StronglySorted_app_1_l in Hso.
Qed.

Lemma process_keeps_until_limit_witness :
  term scenario_C <> "" /\ ["ac"; "aa"; "ab"] <> [] /\
  0 <= itemLimit (options scenario_C) /\
  items (widget_of (process Unshared ["ac"; "aa"; "ab"] scenario_C)) =
    ["aa"; "ab"] /\
  exists seen unseen evs,
    apply_sorter (options scenario_C) ["ac"; "aa"; "ab"] = seen ++ unseen /\
    events (widget_of (process Unshared ["ac"; "aa"; "ab"] scenario_C)) =
      events scenario_C ++ evs ++
      (if String.eqb (contentElement (options scenario_C)) ""
       then [FireShow] else []) /\
    passed_to_matcher evs =
      (if has_matcher (options scenario_C) then seen else []) /\
    passed_to_highlighter evs =
      items (widget_of (process Unshared ["ac"; "aa"; "ab"] scenario_C)) /\
    items (widget_of (process Unshared ["ac"; "aa"; "ab"] scenario_C)) =
      List.filter (matches (options scenario_C) (term scenario_C)) seen /\
    items (widget_of (process Unshared ["ac"; "aa"; "ab"] scenario_C)) =
      firstn (Z.to_nat (itemLimit (options scenario_C)))
        (List.filter (matches (options scenario_C) (term scenario_C))
           (apply_sorter (options scenario_C) ["ac"; "aa"; "ab"])) /\
    Z.of_nat
      (length (items (widget_of (process Unshared ["ac"; "aa"; "ab"] scenario_C)))) <=
      itemLimit (options scenario_C) /\
    (unseen <> [] ->
     Z.of_nat
       (length
          (items (widget_of (process Unshared ["ac"; "aa"; "ab"] scenario_C)))) =
       itemLimit (options scenario_C) /\
     (0 < itemLimit (options scenario_C) ->
      exists pre x,
        seen = pre ++ [x] /\
        matches (options scenario_C) (term scenario_C) x = true)) /\
    (forall f, sorter (options scenario_C) = CbFunction f ->
               seen ++ unseen = returns f ["ac"; "aa"; "ab"]) /\
    (sorter (options scenario_C) = CbFunction sort ->
     Permutation ["ac"; "aa"; "ab"] (seen ++ unseen) /\
     StronglySorted String.le (seen ++ unseen) /\
     StronglySorted String.le
       (items (widget_of (process Unshared ["ac"; "aa"; "ab"] scenario_C)))).
Proof.
  split; [discriminate|]. split; [discriminate|]. split; [by_evaluation|].
  split; [by_evaluation|].
  apply (process_keeps_until_limit Unshared scenario_C ["ac"; "aa"; "ab"]).
  - discriminate.
  - discriminate.
  - by_evaluation.
Defined.

(** Scenario C of the specification: only the first two items are rendered
    and the third reaches neither the matcher nor the highlighter. *)
Example scenario_C_renders :
  items (widget_of (process Unshared ["aa"; "ab"; "ac"] scenario_C)) =
    ["aa"; "ab"] /\
  events (widget_of (process Unshared ["aa"; "ab"; "ac"] scenario_C)) =
    [FireInit; CallMatcher "aa" "a"; CallHighlight "aa"; CallMatcher "ab" "a";
     CallHighlight "ab"; FireShow].
Proof. by_evaluation. Qed.

(** Scenario A of the specification: the two matching items in order, each
    with the term emphasized. *)
Example scenario_A_renders :
  items scenario_A = ["apple"; "apricot"] /\
  rows (element scenario_A) = [emphasize "ap" +:+ "ple"; emphasize "ap" +:+ "ricot"] /\
  isVisible scenario_A = true.
Proof. by_evaluation. Qed.

(** ** Cycling through the rows *)

Lemma at_index_some {A} (l : list A) (i : Z) :
  0 <= i < Z.of_nat (length l) -> exists x, Js.at_index l i = Some x.
Proof.
  intros Hi. unfold Js.at_index.
  destruct (Z.ltb_spec i 0); [lia|].
  destruct (nth_error l (Z.to_nat i)) eqn:E; [eauto|].
  apply nth_error_None in E. lia.
Qed.

Lemma open_limit n w :
  open_over n w ->
  Js.limit (Z.of_nat (length (items w))) 0 (itemLimit (options w)) = Z.of_nat n.
Proof. intros [_ Hi _ Hn Hl]. unfold Js.limit. rewrite Hi. lia. Qed.

Lemma open_guard n w :
  open_over n w ->
  (Js.limit (Z.of_nat (length (items w))) 0 (itemLimit (options w)) =? 0)
  || negb (isVisible w) = false.
Proof.
  intros H. rewrite (open_limit n w H). destruct H as [Hv _ _ Hn _].
  rewrite Hv. simpl. rewrite orb_false_r. apply Z.eqb_neq. lia.
Qed.

(** Marking a row that exists keeps the dropdown open and the index. *)
Lemma select_row_open n w i :
  open_over n w -> 0 <= i < Z.of_nat n ->
  exists w', select_row (items w) (with_index w i) = Returned w' /\
             index w' = i /\ open_over n w' /\
             active (element w') = Some i /\
             Some (value (input w')) = Js.at_index (items w) i.
Proof.
  intros [Hv Hi Hr Hn Hl] Hin. unfold select_row. simpl_widget.
  destruct (Z.leb_spec 0 i); [|lia].
  destruct (at_index_some (rows (element w)) i) as [r Hrow]; [lia|].
  destruct (at_index_some (items w) i) as [x Hx]; [lia|].
  rewrite Hrow, Hx. eexists; split; [reflexivity|]. simpl_widget.
  repeat split; assumption.
Qed.

Lemma cycle_up n w :
  open_over n w -> -1 <= index w < Z.of_nat n ->
  exists w', _cycle "up" w = Returned w' /\
             index w' = (if index w - 1 <? 0 then Z.of_nat n - 1 else index w - 1) /\
             open_over n w'.
Proof.
  intros Ho Hi. unfold _cycle. cbn zeta. rewrite (open_guard n w Ho).
  rewrite (open_limit n w Ho). cbn [String.eqb Ascii.eqb Bool.eqb].
  simpl_widget.
  pose proof (oo_some n w Ho) as Hn.
  destruct (Z.ltb_spec (index w - 1) 0).
  - destruct (select_row_open n w (Z.of_nat n - 1) Ho) as (w' & E & Hx & Ho' & _);
      [lia|].
    change (with_index (with_index w (index w - 1)) (Z.of_nat n - 1))
      with (with_index w (Z.of_nat n - 1)).
    exists w'. now rewrite E.
  - destruct (select_row_open n w (index w - 1) Ho) as (w' & E & Hx & Ho' & _);
      [lia|].
    exists w'. now rewrite E.
Qed.

Lemma cycle_down n w :
  open_over n w -> -1 <= index w < Z.of_nat n ->
  exists w', _cycle "down" w = Returned w' /\
             index w' = (if Z.of_nat n <=? index w + 1 then 0 else index w + 1) /\
             open_over n w'.
Proof.
  intros Ho Hi. unfold _cycle. cbn zeta. rewrite (open_guard n w Ho).
  rewrite (open_limit n w Ho). cbn [String.eqb Ascii.eqb Bool.eqb].
  simpl_widget.
  pose proof (oo_some n w Ho) as Hn.
  destruct (Z.leb_spec (Z.of_nat n) (index w + 1)).
  - destruct (select_row_open n w 0 Ho) as (w' & E & Hx & Ho' & _); [lia|].
    change (with_index (with_index w (index w + 1)) 0) with (with_index w 0).
    exists w'. now rewrite E.
  - destruct (select_row_open n w (index w + 1) Ho) as (w' & E & Hx & Ho' & _);
      [lia|].
    exists w'. now rewrite E.
Qed.

(** A render that returns leaves the index at -1, and when it kept
    something the dropdown is open over what it kept. *)
Lemma process_opens (h : Holder) (raw : list string) (w : TypeAhead) :
  term w <> "" -> raw <> [] -> 0 <= itemLimit (options w) ->
  contentElement (options w) = "" -> term w <> "__proto__" ->
  exists w',
    process h raw w = Returned w' /\ index w' = -1 /\
    (items w' <> [] -> open_over (length (items w')) w').
Proof.
  intros Ht Hr Hlim Hc Hp.
  destruct (process_renders h raw w Ht Hr Hc Hp)
    as (w' & E & [Hi Hx _ _ Hrows Hs _ _ Ho _ _ _ _]).
  exists w'. split; [exact E|]. split; [exact Hx|]. intros Hne.
  assert (Hpos : (0 < length (items w'))%nat).
  { destruct (items w'); [congruence|simpl; lia]. }
  split.
  - unfold isVisible. rewrite Hs.
    destruct (Z.eqb_spec (Z.of_nat (length (items w'))) 0); [lia|reflexivity].
  - reflexivity.
  - now rewrite Hrows, length_map.
  - exact Hpos.
  - rewrite Ho.
    destruct (sorted_in_place_frame h raw w)
      as (_ & _ & _ & _ & _ & _ & _ & _ & _ & _ & Hl & _).
    rewrite Hl, Hi.
    pose proof (evaluated_bound (options w) (term w)
                  (apply_sorter (options w) raw) 0 Hlim). lia.
Qed.

Lemma pressed_down n w :
  open_over n w -> -1 <= index w < Z.of_nat n ->
  index (pressed "down" w) = (index w + 1) mod Z.of_nat n /\
  open_over n (pressed "down" w).
Proof.
  intros Ho Hi. destruct (cycle_down n w Ho Hi) as (w' & E & Hx & Ho').
  unfold pressed. rewrite E. simpl. split; [|exact Ho'].
  rewrite Hx. destruct (Z.leb_spec (Z.of_nat n) (index w + 1)).
  - replace (index w + 1) with (Z.of_nat n) by lia.
    now rewrite Z_mod_same_full.
  - rewrite Z.mod_small; lia.
Qed.

Lemma pressed_down_many n w k :
  open_over n w -> 0 <= index w < Z.of_nat n ->
  index (Nat.iter k (pressed "down") w) = (index w + Z.of_nat k) mod Z.of_nat n /\
  open_over n (Nat.iter k (pressed "down") w).
Proof.
  intros Ho Hi. induction k as [|k [IHi IHo]].
  - simpl. rewrite Z.add_0_r, Z.mod_small by lia. now split.
  - rewrite Nat.iter_succ.
    assert (Hr : 0 <= index (Nat.iter k (pressed "down") w) < Z.of_nat n).
    { rewrite IHi. apply Z.mod_pos_bound. lia. }
    destruct (pressed_down n _ IHo) as [Hx Ho']; [lia|].
    split; [|exact Ho'].
    rewrite Hx, IHi, Zplus_mod_idemp_l. f_equal. lia.
Qed.

(** C2, amended.  Over [n] rendered items and from an index that is -1 or a
    row, up steps back and wraps to [n - 1] below 0 (so from -1 to [n - 1]),
    down steps forward and wraps to 0 at [n]; [n] times down from a row
    returns to that row, and from -1 it ends on the last row. *)
Theorem cycle_wraps (n : nat) (w : TypeAhead) :
  open_over n w -> -1 <= index w < Z.of_nat n ->
  (exists w', _cycle "up" w = Returned w' /\ open_over n w' /\
              index w' = if index w - 1 <? 0 then Z.of_nat n - 1 else index w - 1) /\
  (exists w', _cycle "down" w = Returned w' /\ open_over n w' /\
              index w' = if Z.of_nat n <=? index w + 1 then 0 else index w + 1) /\
  (index w = -1 -> index (pressed "up" w) = Z.of_nat n - 1) /\
  (0 <= index w -> index (Nat.iter n (pressed "down") w) = index w) /\
  (index w = -1 -> index (Nat.iter n (pressed "down") w) = Z.of_nat n - 1).
Proof.
  intros Ho Hi. pose proof (oo_some n w Ho) as Hn.
  destruct (cycle_up n w Ho Hi) as (wu & Eu & Hu & Hou).
  destruct (cycle_down n w Ho Hi) as (wd & Ed & Hd & Hod).
  split; [exists wu; auto|]. split; [exists wd; auto|]. split; [|split].
  - intros Hm. unfold pressed. rewrite Eu. simpl. rewrite Hu, Hm. reflexivity.
  - intros H0. destruct (pressed_down_many n w n Ho) as [Hx _]; [lia|].
    rewrite Hx, <- (Z.mul_1_l (Z.of_nat n)) at 1.
    rewrite Z_mod_plus_full. apply Z.mod_small. lia.
  - intros Hm. destruct n as [|k]; [lia|].
    rewrite Nat.iter_succ_r.
    destruct (pressed_down (S k) w Ho Hi) as [Hx Ho1].
    rewrite Hm in Hx. change ((-1 + 1) mod Z.of_nat (S k)) with (0 mod Z.of_nat (S k)) in Hx.
    rewrite Z.mod_0_l in Hx by lia.
    destruct (pressed_down_many (S k) (pressed "down" w) k Ho1) as [Hy _]; [lia|].
    rewrite Hy, Hx. rewrite Z.mod_small; lia.
Qed.

Lemma cycle_wraps_witness :
  open_over 2 scenario_C_open /\ -1 <= index scenario_C_open < 2 /\
  (exists w', _cycle "up" scenario_C_open = Returned w' /\ open_over 2 w' /\
              index w' = if index scenario_C_open - 1 <? 0 then 2 - 1
                         else index scenario_C_open - 1) /\
  (exists w', _cycle "down" scenario_C_open = Returned w' /\ open_over 2 w' /\
              index w' = if 2 <=? index scenario_C_open + 1 then 0
                         else index scenario_C_open + 1) /\
  (index scenario_C_open = -1 -> index (pressed "up" scenario_C_open) = 2 - 1) /\
  (0 <= index scenario_C_open ->
   index (Nat.iter 2 (pressed "down") scenario_C_open) = index scenario_C_open) /\
  (index scenario_C_open = -1 ->
   index (Nat.iter 2 (pressed "down") scenario_C_open) = 2 - 1).
Proof.
  split; [split; by_evaluation|]. split; [by_evaluation|].
  apply (cycle_wraps 2 scenario_C_open).
  - split; by_evaluation.
  - by_evaluation.
Defined.

(** C2 as stated fails from the index -1 that every render leaves: two
    times down over two rows ends on row 1. *)
Lemma down_cycle_from_unselected :
  open_over 2 scenario_C_open /\ index scenario_C_open = -1 /\
  index (Nat.iter 2 (pressed "down") scenario_C_open) = 1 /\
  index (Nat.iter 2 (pressed "down") scenario_C_open) <> index scenario_C_open.
Proof.
  split; [split; by_evaluation|]. by_evaluation.
Qed.

(** ** Keys that close the dropdown *)

Lemma cycling_guard w :
  cycling w ->
  (Js.limit (Z.of_nat (length (items w))) 0 (itemLimit (options w)) =? 0)
  || negb (isVisible w) = false.
Proof.
  intros [Hl Hv]. rewrite Hv. simpl. rewrite orb_false_r. now apply Z.eqb_neq.
Qed.

(** C6.  While the dropdown is open, esc sets the index to -1, puts the
    term back into the input, fires [reset] and hides the dropdown; the
    items, the term and the cache stay. *)
Theorem esc_resets (w : TypeAhead) :
  cycling w ->
  exists w',
    _cycle "esc" w = Returned w' /\
    index w' = -1 /\
    value (input w') = term w /\
    events w' = events w ++ [FireReset] /\
    isVisible w' = false /\
    active (element w') = None /\
    items w' = items w /\ term w' = term w /\ cache w' = cache w.
Proof.
  intros Hc. unfold _cycle. cbn zeta. rewrite (cycling_guard w Hc).
  cbn [String.eqb Ascii.eqb Bool.eqb]. unfold select_row. simpl_widget.
  eexists. split; [reflexivity|]. simpl_widget. repeat split.
Qed.

Lemma esc_resets_witness :
  cycling scenario_D /\
  index scenario_D = 1 /\ value (input scenario_D) = "band" /\
  exists w',
    _cycle "esc" scenario_D = Returned w' /\
    index w' = -1 /\
    value (input w') = term scenario_D /\
    events w' = events scenario_D ++ [FireReset] /\
    isVisible w' = false /\
    active (element w') = None /\
    items w' = items scenario_D /\ term w' = term scenario_D /\
    cache w' = cache scenario_D.
Proof.
  split; [split; by_evaluation|].
  split; [by_evaluation|]. split; [by_evaluation|].
  apply (esc_resets scenario_D).
  split; by_evaluation.
Defined.

(** Scenario D of the specification. *)
Example scenario_D_esc :
  term scenario_D = "ban" /\
  value (input (pressed "esc" scenario_D)) = "ban" /\
  events (pressed "esc" scenario_D) = events scenario_D ++ [FireReset].
Proof. by_evaluation. Qed.

(** C10.  While the dropdown is open, enter fires [select] with whatever
    [items[index]] is and with the index as it stands, and hides the
    dropdown; with the index still -1 the item is undefined. *)
Theorem enter_without_selection (w : TypeAhead) :
  cycling w ->
  events (widget_of (_cycle "enter" w)) =
    events w ++ [FireSelect (Js.at_index (items w) (index w)) (index w)] /\
  isVisible (widget_of (_cycle "enter" w)) = false /\
  (index w = -1 ->
   exists w',
     _cycle "enter" w = Returned w' /\
     events w' = events w ++ [FireSelect None (-1)] /\
     index w' = -1 /\ input w' = input w /\ items w' = items w).
Proof.
  intros Hc. unfold _cycle. cbn zeta. rewrite (cycling_guard w Hc).
  cbn [String.eqb Ascii.eqb Bool.eqb]. unfold select_row. simpl_widget.
  split; [|split].
  - destruct (0 <=? index w); [destruct (Js.at_index _ _)|]; reflexivity.
  - destruct (0 <=? index w); [destruct (Js.at_index _ _)|]; reflexivity.
  - intros Hm. rewrite Hm. cbn [Z.leb Z.compare].
    eexists. split; [reflexivity|]. simpl_widget. repeat split; exact Hm.
Qed.

Lemma enter_without_selection_witness :
  cycling scenario_C_open /\
  events (widget_of (_cycle "enter" scenario_C_open)) =
    events scenario_C_open ++
    [FireSelect (Js.at_index (items scenario_C_open) (index scenario_C_open))
       (index scenario_C_open)] /\
  isVisible (widget_of (_cycle "enter" scenario_C_open)) = false /\
  (index scenario_C_open = -1 ->
   exists w',
     _cycle "enter" scenario_C_open = Returned w' /\
     events w' = events scenario_C_open ++ [FireSelect None (-1)] /\
     index w' = -1 /\ input w' = input scenario_C_open /\
     items w' = items scenario_C_open).
Proof.
  split; [split; by_evaluation|].
  apply (enter_without_selection scenario_C_open).
  split; by_evaluation.
Defined.

(** ** Rendering nothing *)

Lemma process_nothing (h : Holder) (raw : list string) (w : TypeAhead) :
  term w = "" \/ raw = [] -> process h raw w = Returned (hide w).
Proof.
  intros H. unfold process. destruct H as [-> | ->]; simpl; [reflexivity|].
  now rewrite orb_true_r.
Qed.

Lemma calls_no_access o t l : source_accesses (calls o t l) = [].
Proof.
  unfold source_accesses, calls.
  induction l as [|y l IH]; [reflexivity|].
  simpl. rewrite !List.filter_app, IH.
  destruct (has_matcher o), (matches o t y); reflexivity.
Qed.

(** [process] only adds to the observations, and no access to the
    source. *)
Lemma process_events (h : Holder) (raw : list string) (w : TypeAhead) :
  exists evs, events (widget_of (process h raw w)) = events w ++ evs /\
              source_accesses evs = [].
Proof.
  destruct (String.eqb_spec (term w) "") as [Ht|Ht].
  - exists []. rewrite process_nothing by auto. simpl_widget.
    now rewrite app_nil_r.
  - destruct raw as [|x raw].
    + exists []. rewrite process_nothing by auto. simpl_widget.
      now rewrite app_nil_r.
    + destruct (process_keeps h (x :: raw) w Ht) as [_ _ He _ _ _ _ _];
        [discriminate|].
      eexists. split; [exact He|].
      unfold source_accesses. rewrite List.filter_app.
      fold (source_accesses
              (calls (options w) (term w)
                 (evaluated (options w) (term w)
                    (apply_sorter (options w) (x :: raw)) 0))).
      rewrite calls_no_access.
      now destruct (String.eqb (contentElement (options w)) "").
Qed.

(** C5, amended.  When [process] runs with an empty term or an empty raw
    list it hides the dropdown and changes nothing else: the items, the
    index, the term, the cache and the rows stay as they were. *)
Theorem process_empty_only_hides (h : Holder) (w : TypeAhead)
    (raw : list string) :
  term w = "" \/ raw = [] ->
  process h raw w = Returned (hide w) /\
  isVisible (widget_of (process h raw w)) = false /\
  items (widget_of (process h raw w)) = items w /\
  index (widget_of (process h raw w)) = index w /\
  term (widget_of (process h raw w)) = term w /\
  cache (widget_of (process h raw w)) = cache w /\
  rows (element (widget_of (process h raw w))) = rows (element w) /\
  events (widget_of (process h raw w)) = events w /\
  options (widget_of (process h raw w)) = options w.
Proof.
  intros H. rewrite (process_nothing h raw w H). simpl_widget. repeat split.
Qed.

Lemma process_empty_only_hides_witness :
  (term scenario_D = "" \/ @nil string = []) /\
  process Unshared [] scenario_D = Returned (hide scenario_D) /\
  isVisible (widget_of (process Unshared [] scenario_D)) = false /\
  items (widget_of (process Unshared [] scenario_D)) = items scenario_D /\
  index (widget_of (process Unshared [] scenario_D)) = index scenario_D /\
  term (widget_of (process Unshared [] scenario_D)) = term scenario_D /\
  cache (widget_of (process Unshared [] scenario_D)) = cache scenario_D /\
  rows (element (widget_of (process Unshared [] scenario_D))) =
    rows (element scenario_D) /\
  events (widget_of (process Unshared [] scenario_D)) = events scenario_D /\
  options (widget_of (process Unshared [] scenario_D)) = options scenario_D.
Proof.
  split; [right; reflexivity|].
  apply (process_empty_only_hides Unshared scenario_D []). right; reflexivity.
Defined.

(** C5 as stated fails: after an empty result the three rendered items and
    the active index 1 are still there. *)
Lemma process_empty_keeps_items :
  items (widget_of (process Unshared [] scenario_D)) =
    ["banana"; "band"; "bandana"] /\
  items (widget_of (process Unshared [] scenario_D)) <> [] /\
  index (widget_of (process Unshared [] scenario_D)) = 1 /\
  index (widget_of (process Unshared [] scenario_D)) <> -1.
Proof. by_evaluation. Qed.

(** ** Scheduling *)

Lemma clearTimeout_frame h w :
  input (clearTimeout h w) = input w /\ options (clearTimeout h w) = options w /\
  term (clearTimeout h w) = term w /\ events (clearTimeout h w) = events w /\
  items (clearTimeout h w) = items w /\ index (clearTimeout h w) = index w /\
  next_timeout (clearTimeout h w) = next_timeout w /\
  timer (clearTimeout h w) = timer w.
Proof. destruct h; simpl; repeat split. Qed.

Lemma clearTimeout_pending h w t :
  In t (timeouts (clearTimeout h w)) ->
  In t (timeouts w) /\ h <> Some (handle t).
Proof.
  destruct h as [n|]; simpl.
  - rewrite filter_In. intros [Hin Hne]. split; [exact Hin|].
    intros [= ->]. now rewrite Nat.eqb_refl in Hne.
  - intros Hin. split; [exact Hin|discriminate].
Qed.

(** C9.  When a key that is not a navigation key is released over an input
    whose trimmed value is shorter than [minLength], the dropdown is hidden
    and no timer is started: the timers that wait afterwards waited before,
    the widget's own timer is not among them, and the term and the
    observations are as before. *)
Theorem short_term_not_looked_up (key : string) (w : TypeAhead) :
  contains navigation_keys key = false ->
  Js.length (Js.trim (value (input w))) < minLength (options w) ->
  isVisible (_lookup key w) = false /\
  next_timeout (_lookup key w) = next_timeout w /\
  (forall t, In t (timeouts (_lookup key w)) ->
             In t (timeouts w) /\ timer w <> Some (handle t)) /\
  timer (_lookup key w) = timer w /\
  term (_lookup key w) = term w /\
  events (_lookup key w) = events w /\
  items (_lookup key w) = items w /\
  index (_lookup key w) = index w.
Proof.
  intros Hk Hs. unfold _lookup. rewrite Hk. cbn zeta.
  destruct (clearTimeout_frame (timer w) w)
    as (Hi & Ho & Ht & He & Hit & Hix & Hn & Htm).
  rewrite Hi, Ho.
  destruct (Z.ltb_spec (Js.length (Js.trim (value (input w))))
              (minLength (options w))); [|lia].
  simpl_widget. repeat split; try assumption;
    now apply clearTimeout_pending in H0.
Qed.

Lemma short_term_not_looked_up_witness :
  contains navigation_keys "p" = false /\
  Js.length (Js.trim (value (input scenario_B))) < minLength (options scenario_B) /\
  timeouts scenario_B = [Build_Timeout 0 250 "app"] /\
  isVisible (_lookup "p" scenario_B) = false /\
  next_timeout (_lookup "p" scenario_B) = next_timeout scenario_B /\
  (forall t, In t (timeouts (_lookup "p" scenario_B)) ->
             In t (timeouts scenario_B) /\ timer scenario_B <> Some (handle t)) /\
  timer (_lookup "p" scenario_B) = timer scenario_B /\
  term (_lookup "p" scenario_B) = term scenario_B /\
  events (_lookup "p" scenario_B) = events scenario_B /\
  items (_lookup "p" scenario_B) = items scenario_B /\
  index (_lookup "p" scenario_B) = index scenario_B.
Proof.
  split; [by_evaluation|]. split; [by_evaluation|].
  split; [by_evaluation|].
  apply (short_term_not_looked_up "p" scenario_B).
  - reflexivity.
  - by_evaluation.
Defined.

(** Scenario B of the specification: no timer is left and nothing shows. *)
Example scenario_B_stays_hidden :
  timeouts (_lookup "p" scenario_B) = [] /\
  isVisible (_lookup "p" scenario_B) = false.
Proof. by_evaluation. Qed.

(** ** Sources *)


Lemma property_stored {A} (own : gmap string A) k a :
  own !! k = Some a -> property own k = Stored a.
Proof. intros E. unfold property. now rewrite E. Qed.

Lemma property_missing {A} (own : gmap string A) k :
  property own k = Missing <-> own !! k = None /\ Js.object_member k = None.
Proof.
  unfold property. destruct (own !! k); [split; [discriminate|intros [[=] _]]|].
  destruct (Js.object_member k); split; try discriminate; auto.
  intros [_ [=]].
Qed.

Lemma property_inherited {A} (own : gmap string A) k m :
  own !! k = None -> Js.object_member k = Some m ->
  property own k = Inherited m.
Proof. intros E1 E2. unfold property. now rewrite E1, E2. Qed.


(** A member without a length only hides the dropdown. *)
Lemma process_member_guard (m : Js.Member) (w : TypeAhead) :
  term w = "" \/ Js.member_length m = 0 ->
  process_member m w = Returned (hide w).
Proof.
  intros H. unfold process_member. destruct H as [-> | ->]; simpl;
    [reflexivity|]. now rewrite orb_true_r.
Qed.

(** The default sorter fails on a member that has a length. *)
Lemma process_member_unsortable (m : Js.Member) (w : TypeAhead) :
  term w <> "" -> Js.member_length m <> 0 ->
  sorter (options w) = CbFunction sort ->
  process_member m w =
  Thrown (TypeError "items.sort is not a function")
    (with_index (with_items w []) (-1)).
Proof.
  intros Ht Hm Hs. unfold process_member.
  destruct (Js.length (term w) =? 0) eqn:E1;
    [now apply length_zero_empty in E1|].
  destruct (Z.eqb_spec (Js.member_length m) 0); [contradiction|].
  simpl_widget. now rewrite Hs.
Qed.




(** C8, amended.  With a function as source and a term under which the
    cache object answers nothing, the timer calls the function with no
    arguments and with the widget as [this], whose term is the one looked
    up.  A throw, [undefined] and [null] end the lookup there, with the
    dropdown as it was; a list, also an empty one, goes to [process], which
    hides the dropdown when the list is empty. *)
Theorem function_source_called_without_arguments
    (t : string) (w : TypeAhead) (f : SourceFn) :
  source (options w) = SrcFunction f -> property (cache w) t = Missing ->
  (forall w0, this_term (context_of (lookup t w0)) = t) /\
  (exists evs,
     events (widget_of (lookup_timeout t w)) = events w ++ CallSource [] :: evs /\
     source_accesses evs = []) /\
  (f [] (context_of w) = Throw ->
   lookup_timeout t w = Returned (observe w (CallSource []))) /\
  (forall v, f [] (context_of w) = Return v -> truthy v = false ->
   lookup_timeout t w = Returned (observe w (CallSource []))) /\
  (forall l, f [] (context_of w) = Return (Array l) ->
   lookup_timeout t w = process Unshared l (observe w (CallSource []))) /\
  (f [] (context_of w) = Return (Array []) ->
   lookup_timeout t w = Returned (hide (observe w (CallSource [])))) /\
  element (observe w (CallSource [])) = element w.
Proof.
  intros Hs Hc. split; [reflexivity|].
  unfold lookup_timeout, attempt. rewrite Hc, Hs. split; [|repeat split].
  - destruct (f [] (context_of w)) as [[| |l]|] eqn:Hf; cbn [truthy elements].
    1,2,4: exists []; simpl_widget; repeat split.
    destruct (process_events Unshared l (observe w (CallSource [])))
      as (evs & He & Ha).
    exists evs. split; [|exact Ha].
    rewrite He. simpl_widget. now rewrite <- app_assoc.
  - now intros ->.
  - intros v -> Hv. now rewrite Hv.
  - now intros l ->.
  - intros ->. cbn [truthy elements]. now rewrite process_nothing by auto.
Qed.

Lemma function_source_called_without_arguments_witness :
  source (options narrow_widget) = SrcFunction narrow_source /\
  property (cache narrow_widget) "a" = Missing /\
  (forall w0, this_term (context_of (lookup "a" w0)) = "a") /\
  (exists evs,
     events (widget_of (lookup_timeout "a" narrow_widget)) =
       events narrow_widget ++ CallSource [] :: evs /\
     source_accesses evs = []) /\
  (narrow_source [] (context_of narrow_widget) = Throw ->
   lookup_timeout "a" narrow_widget =
     Returned (observe narrow_widget (CallSource []))) /\
  (forall v, narrow_source [] (context_of narrow_widget) = Return v ->
             truthy v = false ->
   lookup_timeout "a" narrow_widget =
     Returned (observe narrow_widget (CallSource []))) /\
  (forall l, narrow_source [] (context_of narrow_widget) = Return (Array l) ->
   lookup_timeout "a" narrow_widget =
     process Unshared l (observe narrow_widget (CallSource []))) /\
  (narrow_source [] (context_of narrow_widget) = Return (Array []) ->
   lookup_timeout "a" narrow_widget =
     Returned (hide (observe narrow_widget (CallSource [])))) /\
  element (observe narrow_widget (CallSource [])) = element narrow_widget.
Proof.
  split; [by_evaluation|]. split; [by_evaluation|].
  apply (function_source_called_without_arguments "a" narrow_widget narrow_source).
  - reflexivity.
  - by_evaluation.
Defined.

(** C8 as stated fails twice.  A source function that answers from its first
    argument is called with none and renders nothing; and an empty list
    from the function does reach [process], which hides a dropdown that was
    showing.  For a term that names a member of every object the function
    is not called at all. *)
Lemma function_source_gets_no_term :
  (events (after_timeout 0 (typed "a" (fresh (configure (SrcFunction echo_source) 15 1)))) =
     [FireInit; CallSource []] /\
   items (after_timeout 0 (typed "a" (fresh (configure (SrcFunction echo_source) 15 1)))) = []) /\
  (isVisible (after_timeout 0 narrow_widget) = true /\
   narrow_source [] (context_of (typed "ab" (after_timeout 0 narrow_widget))) =
     Return (Array []) /\
   isVisible (after_timeout 1 (typed "ab" (after_timeout 0 narrow_widget))) = false) /\
  events
    (after_timeout 0
       (typed "toString" (fresh (configure (SrcFunction echo_source) 15 1)))) =
    [FireInit].
Proof. by_evaluation. Qed.

(** ** The cache *)

Lemma evaluated_all o t l :
  Forall (fun x => matches o t x = true) l ->
  Z.of_nat (length l) <= itemLimit o ->
  evaluated o t l 0 = l.
Proof.
  intros Hall Hlen.
  assert (G : forall c, 0 <= c -> c + Z.of_nat (length l) <= itemLimit o ->
                        evaluated o t l c = l).
  { induction Hall as [|x l Hx Hall IH]; intros c Hc Hl; [reflexivity|].
    simpl in *. destruct (Z.leb_spec (itemLimit o) c); [lia|].
    rewrite Hx. f_equal. apply IH; lia. }
  apply G; lia.
Qed.

Lemma filter_all {A} (f : A -> bool) l :
  Forall (fun x => f x = true) l -> List.filter f l = l.
Proof.
  induction 1 as [|x l Hx _ IH]; [reflexivity|]. simpl. now rewrite Hx, IH.
Qed.

(** The list a render keeps: all of it matches and it is within a limit
    that is not negative. *)
Lemma kept_matches o t l c :
  Forall (fun x => matches o t x = true)
    (List.filter (matches o t) (evaluated o t l c)).
Proof. apply List.Forall_forall. intros x Hx. now apply filter_In in Hx. Qed.

Lemma evaluated_negative o t l c : itemLimit o <= c -> evaluated o t l c = [].
Proof.
  intros H. destruct l; [reflexivity|]. simpl.
  destruct (Z.leb_spec (itemLimit o) c); [reflexivity|lia].
Qed.

Lemma sort_sorted l : StronglySorted String.le l -> returns sort l = l.
Proof.
  intros Hl. unfold sort. cbn [returns].
  apply (StronglySorted_unique String.le); [|exact Hl|].
  - apply StronglySorted_merge_sort; apply _.
  - apply merge_sort_Permutation.
Qed.

(** The default sorter leaves what a render kept in its order, so under it
    a cached list that is not empty is rendered again as it is. *)
Lemma default_sorter_keeps_rendered (h : Holder) (w : TypeAhead)
    (raw : list string) :
  sorter (options w) = CbFunction sort -> term w <> "" -> raw <> [] ->
  returns sort (items (widget_of (process h raw w))) =
  items (widget_of (process h raw w)).
Proof.
  intros Hs Ht Hr.
  destruct (process_keeps h raw w Ht Hr) as [Hi _ _ _ _ _ _ _].
  rewrite Hi. unfold apply_sorter. rewrite Hs. apply sort_sorted.
  apply filter_sorted.
  destruct (evaluated_prefix (options w) (term w) (returns sort raw) 0) as [u Hu].
  assert (Hso : StronglySorted String.le (returns sort raw)).
  { apply StronglySorted_merge_sort; apply _. }
  rewrite Hu in Hso. now apply StronglySorted_app_1_l in Hso.
Qed.

(** A render that passes the guard and returns had no content element to
    stop it, and did not write under [__proto__]. *)
Lemma process_returned (h : Holder) (raw : list string) (w w' : TypeAhead) :
  term w <> "" -> raw <> [] -> process h raw w = Returned w' ->
  contentElement (options w) = "" /\ term w <> "__proto__".
Proof.
  intros Ht Hr. rewrite (process_loop h raw w Ht Hr). unfold append_list.
  destruct (sorted_in_place_frame h raw (with_index (with_items w []) (-1)))
    as (_ & _ & _ & Hterm & _ & _ & _ & _ & _ & _ & _ & _ & Hc).
  simpl_widget. rewrite Hc, Hterm.
  destruct (String.eqb_spec (contentElement (options w)) ""); cbn [negb];
    [|discriminate].
  destruct (String.eqb_spec (term w) "__proto__"); [discriminate|].
  now split.
Qed.

(** C3, amended.  Once [process] has rendered a raw list for the term and
    cached what it kept, a later run of the lookup for the same term takes
    the cached list instead of the source: no read, call or request is
    observed.  It renders the cached list again, so that the items are the
    cached ones when that list is not empty and the sorter leaves it in its
    order, as the default sorter does; an empty cached list only hides the
    dropdown and leaves the items of whatever was rendered last. *)
Theorem cached_lookup_replays (h : Holder) (w0 w1 w : TypeAhead)
    (raw : list string) (t : string) :
  term w0 = t -> t <> "" -> raw <> [] ->
  process h raw w0 = Returned w1 ->
  options w = options w1 -> term w = t ->
  cache w !! t = Some (items w1) ->
  cache w1 !! t = Some (items w1) /\
  exists w' evs,
    lookup_timeout t w = Returned w' /\
    events w' = events w ++ evs /\ source_accesses evs = [] /\
    (items w1 <> [] ->
     apply_sorter (options w) (items w1) = items w1 ->
     items w' = items w1) /\
    (items w1 <> [] -> sorter (options w) = CbFunction sort ->
     items w' = items w1) /\
    (items w1 = [] -> items w' = items w /\ isVisible w' = false).
Proof.
  intros Ht0 Hne Hraw E1 Ho Ht Hc. subst t.
  destruct (process_returned h raw w0 w1 Hne Hraw E1) as [Hce Hp].
  destruct (process_renders h raw w0 Hne Hraw Hce Hp)
    as (w1' & E1' & [Hi _ _ Hca _ _ _ _ Hop _ _ _ _]).
  rewrite E1 in E1'. injection E1' as <-.
  destruct (sorted_in_place_frame h raw w0)
    as (_ & _ & _ & _ & _ & _ & _ & _ & _ & Hm & Hl & Hso & Hcn).
  rewrite <- Hop, <- Ho in Hm, Hl, Hso, Hcn.
  split; [rewrite Hca; apply lookup_insert_eq|].
  unfold lookup_timeout. rewrite (property_stored _ _ _ Hc).
  pose proof (default_sorter_keeps_rendered h w0 raw) as Hdef.
  rewrite E1 in Hdef. simpl_widget.
  remember (items w1) as cached eqn:Ecd.
  destruct (process_events (CacheEntry (term w0)) cached w) as (evs & He & Ha).
  assert (Hw : term w <> "") by now rewrite Ht.
  assert (Hkey : cached <> [] -> apply_sorter (options w) cached = cached ->
                 exists w', process (CacheEntry (term w0)) cached w = Returned w' /\
                            items w' = cached).
  { intros Hn Hs.
    destruct (process_renders (CacheEntry (term w0)) cached w Hw Hn)
      as (w' & E' & [Hi' _ _ _ _ _ _ _ _ _ _ _ _]);
      [now rewrite Hcn|now rewrite Ht|].
    exists w'. split; [exact E'|].
    rewrite Hi', Hs, Ht.
    rewrite (evaluated_ext _ _ _ _ _ Hm Hl), (matches_ext _ _ _ Hm).
    assert (Hlim : 0 <= itemLimit (options w0)).
    { destruct (Z.le_gt_cases 0 (itemLimit (options w0))) as [|Hneg]; [assumption|].
      exfalso. apply Hn. rewrite Hi.
      rewrite evaluated_negative by lia. reflexivity. }
    assert (Hall : Forall (fun x => matches (options w0) (term w0) x = true) cached).
    { rewrite Hi. apply kept_matches. }
    rewrite evaluated_all; [now apply filter_all|exact Hall|].
    rewrite Hi.
    pose proof (evaluated_bound (options w0) (term w0)
                  (apply_sorter (options w0) raw) 0 Hlim). lia. }
  destruct cached as [|c0 cached'] eqn:Ecached.
  - rewrite process_nothing by auto. exists (hide w), []. simpl_widget.
    rewrite app_nil_r. repeat split; congruence.
  - destruct (String.eqb_spec (contentElement (options w)) "") as [Hcw|Hcw];
      [|now rewrite Hcn in Hcw].
    destruct (process_renders (CacheEntry (term w0)) (c0 :: cached') w Hw)
      as (w' & E' & _); [discriminate|exact Hcw|now rewrite Ht|].
    rewrite E' in He. simpl_widget. exists w', evs.
    split; [exact E'|]. split; [exact He|]. split; [exact Ha|].
    split; [|split].
    + intros Hn Hs. destruct (Hkey Hn Hs) as (w'' & E'' & Hit).
      rewrite E' in E''. now injection E'' as <-.
    + intros Hn Hs.
      assert (Hs' : apply_sorter (options w) (c0 :: cached') = c0 :: cached').
      { unfold apply_sorter. rewrite Hs. apply Hdef; [|assumption..].
        now rewrite <- Hso. }
      destruct (Hkey Hn Hs') as (w'' & E'' & Hit).
      rewrite E' in E''. now injection E'' as <-.
    + discriminate.
Qed.

Lemma cached_lookup_replays_witness :
  term scenario_C = "a" /\ "a" <> "" /\ ["aa"; "ab"; "ac"] <> [] /\
  process Unshared ["aa"; "ab"; "ac"] scenario_C = Returned scenario_C_open /\
  options scenario_C_open = options scenario_C_open /\
  term scenario_C_open = "a" /\
  cache scenario_C_open !! "a" = Some (items scenario_C_open) /\
  items scenario_C_open = ["aa"; "ab"] /\
  cache (widget_of (lookup_timeout "a" scenario_C_open)) !! "a" =
    Some ["aa"; "ab"] /\
  exists w' evs,
    lookup_timeout "a" scenario_C_open = Returned w' /\
    events w' = events scenario_C_open ++ evs /\ source_accesses evs = [] /\
    (items scenario_C_open <> [] ->
     apply_sorter (options scenario_C_open) (items scenario_C_open) =
     items scenario_C_open ->
     items w' = items scenario_C_open) /\
    (items scenario_C_open <> [] ->
     sorter (options scenario_C_open) = CbFunction sort ->
     items w' = items scenario_C_open) /\
    (items scenario_C_open = [] ->
     items w' = items scenario_C_open /\ isVisible w' = false).
Proof.
  split; [reflexivity|]. split; [discriminate|]. split; [discriminate|].
  split; [by_evaluation|]. split; [reflexivity|]. split; [by_evaluation|].
  split; [by_evaluation|]. split; [by_evaluation|]. split; [by_evaluation|].
  apply (cached_lookup_replays Unshared scenario_C scenario_C_open
           scenario_C_open ["aa"; "ab"; "ac"] "a").
  - reflexivity.
  - discriminate.
  - discriminate.
  - by_evaluation.
  - reflexivity.
  - by_evaluation.
  - by_evaluation.
Defined.

(** C3 as stated fails.  With the defaults, the second lookup of "zz" takes
    the empty cached list and leaves the item rendered for "a" in place,
    where the first had left none.  And under a sorter that reverses, the
    second lookup of "a" renders the cached list in the opposite order. *)
Lemma cached_lookup_differs :
  (items first_zz = [] /\ cache then_a !! "zz" = Some [] /\
   items second_zz = ["aa"] /\ items second_zz <> items first_zz /\
   source_accesses (events second_zz) = source_accesses (events then_a)) /\
  (items first_a = ["ab"; "aa"] /\
   cache first_a !! "a" = Some ["ab"; "aa"] /\
   items second_a = ["aa"; "ab"] /\ items second_a <> items first_a /\
   source_accesses (events second_a) = source_accesses (events first_a)).
Proof.
  split; by_evaluation.
Qed.

(** ** Highlighting *)

Lemma append_cons x (a b : string) : String x a +:+ b = String x (a +:+ b).
Proof. reflexivity. Qed.

Lemma append_assoc (a b c : string) : (a +:+ b) +:+ c = a +:+ (b +:+ c).
Proof.
  induction a as [|x a IH]; [reflexivity|].
  rewrite !append_cons. now rewrite IH.
Qed.

Lemma markup_app k1 k2 : markup (k1 ++ k2) = markup k1 +:+ markup k2.
Proof.
  induction k1 as [|[c| |] k1 IH]; cbn [markup app];
    rewrite ?IH, ?append_assoc; reflexivity.
Qed.

Lemma text_app k1 k2 : text (k1 ++ k2) = text k1 +:+ text k2.
Proof. induction k1 as [|[c| |] k1 IH]; simpl; rewrite ?IH; reflexivity. Qed.

Lemma markup_chars s : markup (chars s) = s.
Proof. induction s as [|c s IH]; simpl; [reflexivity|]. now rewrite IH. Qed.

Lemma text_chars s : text (chars s) = s.
Proof. induction s as [|c s IH]; simpl; [reflexivity|]. now rewrite IH. Qed.

Lemma chars_all s : forallb is_char (chars s) = true.
Proof. induction s as [|c s IH]; simpl; [reflexivity|exact IH]. Qed.

(** Only an angle bracket is equal to an angle bracket when case is
    ignored. *)
Lemma canonical_angle (a b : ascii) :
  b = "<"%char \/ b = ">"%char ->
  Ascii.eqb (Js.canonicalize a) (Js.canonicalize b) = true -> a = b.
Proof.
  intros [-> | ->];
    destruct a as [[] [] [] [] [] [] [] []]; vm_compute; congruence.
Qed.

(** Unfolding [replace] for a literal that is not empty. *)
Lemma replace_empty a lit f : RegExp.replace (String a lit) f "" = "".
Proof. now simp replace. Qed.

Lemma replace_miss a lit f c s :
  RegExp.matches_at (String a lit) (String c s) = false ->
  RegExp.replace (String a lit) f (String c s) =
  String c (RegExp.replace (String a lit) f s).
Proof. intros H. simp replace. rewrite H. now simp replace. Qed.

Lemma replace_hit a lit f c s :
  RegExp.matches_at (String a lit) (String c s) = true ->
  RegExp.replace (String a lit) f (String c s) =
  f (RegExp.take (String.length (String a lit)) (String c s)) +:+
  RegExp.replace (String a lit) f (RegExp.drop (String.length lit) s).
Proof. intros H. simp replace. rewrite H. now simp replace. Qed.

(** A literal without angle brackets that matches at the start of a text
    ending in [">"] followed by more matches within that text. *)
Lemma match_stops_at_angle lit : forall u x,
  angle_free lit = true ->
  RegExp.matches_at lit ((u +:+ ">") +:+ x) = true ->
  RegExp.matches_at lit (u +:+ ">") = true.
Proof.
  induction lit as [|a lit IH]; intros u x Hf Hm; [reflexivity|].
  simpl in Hf. apply andb_prop in Hf as [Ha Hf].
  destruct u as [|c u]; simpl in *.
  - apply andb_prop in Hm as [Hc _].
    apply canonical_angle in Hc; [|now right]. subst a. discriminate.
  - apply andb_prop in Hm as [Hc Hm]. rewrite Hc. simpl.
    now apply (IH u x).
Qed.

Lemma occurs_suffix lit p s :
  RegExp.matches_at lit s = true -> occurs lit (p +:+ s) = true.
Proof.
  intros H. induction p as [|c p IH]; simpl.
  - destruct s; simpl; now rewrite H.
  - rewrite IH. apply orb_true_r.
Qed.

(** [replace] walks through a marker when the literal is marker free. *)
Lemma replace_through a lit f x : forall body p,
  angle_free (String a lit) = true ->
  occurs (String a lit) (p +:+ body +:+ ">") = false ->
  RegExp.replace (String a lit) f ((body +:+ ">") +:+ x) =
  (body +:+ ">") +:+ RegExp.replace (String a lit) f x.
Proof.
  induction body as [|c body IH]; intros p Hf Ho.
  - change (("" +:+ ">") +:+ x) with (String ">" x).
    rewrite replace_miss; [reflexivity|].
    destruct (RegExp.matches_at (String a lit) (String ">" x)) eqn:E; [|reflexivity].
    apply (match_stops_at_angle _ "" x Hf) in E.
    change ("" +:+ ">") with (String ">" "") in E.
    cbn [RegExp.matches_at] in E. apply andb_prop in E as [Hc _].
    apply canonical_angle in Hc; [|now right]. subst a. discriminate.
  - change ((String c body +:+ ">") +:+ x) with (String c ((body +:+ ">") +:+ x)).
    rewrite replace_miss.
    + change (String c body +:+ ">") with (String c (body +:+ ">")).
      rewrite append_cons. f_equal.
      apply (IH (p +:+ String c "")); [exact Hf|].
      rewrite append_assoc. exact Ho.
    + destruct (RegExp.matches_at _ _) eqn:E; [|reflexivity].
      change (String c ((body +:+ ">") +:+ x))
        with ((String c body +:+ ">") +:+ x) in E.
      apply (match_stops_at_angle _ (String c body) x Hf) in E.
      apply (occurs_suffix _ p) in E. congruence.
Qed.

Lemma replace_through_markers a lit f x :
  marker_free (String a lit) = true ->
  RegExp.replace (String a lit) f (open_marker +:+ x) =
    open_marker +:+ RegExp.replace (String a lit) f x /\
  RegExp.replace (String a lit) f (close_marker +:+ x) =
    close_marker +:+ RegExp.replace (String a lit) f x.
Proof.
  unfold marker_free. intros H.
  apply andb_prop in H as [H Hc]. apply andb_prop in H as [Hf Ho].
  apply negb_true_iff in Hc, Ho. split.
  - apply (replace_through a lit f x
             ("<span class=" +:+ String quote "highlight" +:+ String quote "") "");
      assumption.
  - apply (replace_through a lit f x "</span" ""); assumption.
Qed.

Lemma open_marker_head y :
  open_marker +:+ y =
  String "<" (("span class=" +:+ String quote "highlight" +:+ String quote ">") +:+ y).
Proof. reflexivity. Qed.

Lemma close_marker_head y : close_marker +:+ y = String "<" ("/span>" +:+ y).
Proof. reflexivity. Qed.

(** A literal without ["<"] does not match where a marker starts. *)
Lemma no_match_at_marker a lit y :
  angle_free (String a lit) = true ->
  RegExp.matches_at (String a lit) (String "<" y) = false.
Proof.
  intros Hf. cbn [angle_free all_units] in Hf. apply andb_prop in Hf as [Ha _].
  cbn [RegExp.matches_at].
  destruct (Ascii.eqb (Js.canonicalize a) (Js.canonicalize "<")) eqn:Hc;
    [|reflexivity].
  apply canonical_angle in Hc; [|now left]. subst a. discriminate.
Qed.

(** A match that starts in the text lies in the text. *)
Lemma match_in_text lit : forall toks,
  angle_free lit = true \/ forallb is_char toks = true ->
  RegExp.matches_at lit (markup toks) = true ->
  exists m rest,
    toks = chars m ++ rest /\ String.length m = String.length lit /\
    RegExp.take (String.length lit) (markup toks) = m /\
    RegExp.drop (String.length lit) (markup toks) = markup rest.
Proof.
  induction lit as [|a lit IH]; intros toks Hok Hm.
  - exists "", toks. repeat split.
  - destruct toks as [|[c| |] toks'].
    + discriminate.
    + cbn [markup RegExp.matches_at] in Hm. apply andb_prop in Hm as [Hc Hm].
      destruct (IH toks') as (m & rest & Ht & Hl & Htake & Hdrop).
      * destruct Hok as [Hf|Ha]; [left|right; exact Ha].
        cbn [angle_free all_units] in Hf. now apply andb_prop in Hf as [_ Hf].
      * exact Hm.
      * exists (String c m), rest.
        cbn [chars app markup String.length RegExp.take RegExp.drop].
        rewrite Hl, Htake, Hdrop. rewrite Ht at 1. repeat split.
    + exfalso. destruct Hok as [Hf|Hc]; [|discriminate].
      cbn [markup] in Hm. rewrite open_marker_head in Hm.
      now rewrite no_match_at_marker in Hm.
    + exfalso. destruct Hok as [Hf|Hc]; [|discriminate].
      cbn [markup] in Hm. rewrite close_marker_head in Hm.
      now rewrite no_match_at_marker in Hm.
Qed.

Lemma marker_free_angle lit : marker_free lit = true -> angle_free lit = true.
Proof.
  unfold marker_free. intros H.
  apply andb_prop in H as [H _]. now apply andb_prop in H as [H _].
Qed.

Lemma chars_length m : length (chars m) = String.length m.
Proof. induction m as [|c m IH]; simpl; [reflexivity|]. now rewrite IH. Qed.

(** One pass of [highlight] over a markup only adds markers. *)
Lemma replace_markup a lit : forall n toks,
  (length toks <= n)%nat ->
  marker_free (String a lit) = true \/ forallb is_char toks = true ->
  exists toks',
    RegExp.replace (String a lit) emphasize (markup toks) = markup toks' /\
    text toks' = text toks.
Proof.
  induction n as [|n IH]; intros toks Hn Hok.
  - destruct toks; [|simpl in Hn; lia]. exists []. simpl.
    now rewrite replace_empty.
  - destruct toks as [|[c| |] toks'].
    + exists []. simpl. now rewrite replace_empty.
    + cbn [markup].
      destruct (RegExp.matches_at (String a lit) (String c (markup toks'))) eqn:E.
      * destruct (match_in_text (String a lit) (Ch c :: toks'))
          as (m & rest & Ht & Hl & Htake & Hdrop).
        { destruct Hok as [Hf|Hc]; [left; now apply marker_free_angle|now right]. }
        { exact E. }
        destruct (IH rest) as (toks'' & Hr & Hx).
        { apply (f_equal (@length token)) in Ht.
          rewrite length_app, chars_length, Hl in Ht. simpl in Ht, Hn. lia. }
        { destruct Hok as [Hf|Hc]; [now left|right].
          rewrite Ht, forallb_app in Hc. now apply andb_prop in Hc as [_ Hc]. }
        exists (Open :: chars m ++ Close :: toks'').
        rewrite replace_hit by exact E. cbn [markup] in Htake, Hdrop.
        rewrite Htake. cbn [String.length RegExp.drop] in Hdrop.
        rewrite Hdrop, Hr. split.
        -- cbn [markup]. rewrite markup_app, markup_chars. cbn [markup].
           unfold emphasize. now rewrite !append_assoc.
        -- cbn [text]. rewrite text_app, text_chars. cbn [text]. rewrite Hx.
           change (String c (text toks')) with (text (Ch c :: toks')).
           now rewrite Ht, text_app, text_chars.
      * destruct (IH toks') as (toks'' & Hr & Hx).
        { simpl in Hn. lia. }
        { destruct Hok as [Hf|Hc]; [now left|right; exact Hc]. }
        exists (Ch c :: toks''). rewrite replace_miss by exact E.
        cbn [markup text]. now rewrite Hr, Hx.
    + destruct Hok as [Hf|Hc]; [|discriminate].
      destruct (IH toks') as (toks'' & Hr & Hx); [simpl in Hn; lia|now left|].
      exists (Open :: toks''). cbn [markup text].
      rewrite (proj1 (replace_through_markers a lit emphasize _ Hf)).
      now rewrite Hr, Hx.
    + destruct Hok as [Hf|Hc]; [|discriminate].
      destruct (IH toks') as (toks'' & Hr & Hx); [simpl in Hn; lia|now left|].
      exists (Close :: toks''). cbn [markup text].
      rewrite (proj2 (replace_through_markers a lit emphasize _ Hf)).
      now rewrite Hr, Hx.
Qed.

Lemma prefix_append m x : String.prefix m (m +:+ x) = true.
Proof.
  induction m as [|c m IH]; [now destruct x|].
  rewrite append_cons. cbn [String.prefix].
  destruct (ascii_dec c c); [exact IH|congruence].
Qed.

Lemma prefix_other_head m c y :
  c <> "<"%char -> String.prefix (String "<" m) (String c y) = false.
Proof.
  intros H. cbn [String.prefix].
  destruct (ascii_dec "<" c); [congruence|reflexivity].
Qed.

Lemma strip_skip rest x :
  strip_from (String.length rest) (rest +:+ x) = strip_from 0 x.
Proof.
  induction rest as [|c rest IH]; [reflexivity|].
  rewrite append_cons. cbn [String.length strip_from]. exact IH.
Qed.

Lemma strip_open x : strip_from 0 (open_marker +:+ x) = strip_from 0 x.
Proof.
  rewrite open_marker_head at 1. cbn [strip_from].
  rewrite <- open_marker_head, prefix_append.
  apply (strip_skip ("span class=" +:+ String quote "highlight" +:+ String quote ">")).
Qed.

Lemma strip_close x : strip_from 0 (close_marker +:+ x) = strip_from 0 x.
Proof.
  rewrite close_marker_head at 1. cbn [strip_from].
  rewrite <- close_marker_head, prefix_append.
  assert (E : String.prefix open_marker (close_marker +:+ x) = false) by reflexivity.
  rewrite E. apply (strip_skip "/span>").
Qed.

(** Stripping removes the markers and keeps the text, provided the text has
    no ["<"] of its own. *)
Lemma strip_markup toks :
  no_open_angle (text toks) = true -> strip_markers (markup toks) = text toks.
Proof.
  unfold strip_markers. induction toks as [|[c| |] toks IH]; intros Hc.
  - reflexivity.
  - cbn [text no_open_angle all_units] in Hc. apply andb_prop in Hc as [Hx Hc].
    assert (Hd : c <> "<"%char).
    { intros ->. discriminate. }
    cbn [markup text strip_from].
    rewrite (prefix_other_head _ c _ Hd : String.prefix open_marker _ = false).
    rewrite (prefix_other_head _ c _ Hd : String.prefix close_marker _ = false).
    now rewrite (IH Hc).
  - cbn [text markup]. rewrite strip_open. exact (IH Hc).
  - cbn [text markup]. rewrite strip_close. exact (IH Hc).
Qed.

(** The patterns of [highlight] are the literals of the pieces of the term. *)
Lemma split_escape s :
  Js.split_space (RegExp.escape s) = map RegExp.escape (Js.split_space s).
Proof.
  induction s as [|c s IH]; [reflexivity|].
  cbn [RegExp.escape Js.split_space].
  destruct (RegExp.is_meta c) eqn:Hm.
  - assert (Hs : Ascii.eqb c " " = false).
    { destruct (Ascii.eqb_spec c " ") as [->|]; [discriminate|reflexivity]. }
    cbn [Js.split_space]. rewrite Hs, IH.
    destruct (Js.split_space s) as [|p ps]; cbn [map RegExp.escape];
      now rewrite Hm.
  - cbn [Js.split_space]. rewrite IH. destruct (Ascii.eqb c " "); [reflexivity|].
    destruct (Js.split_space s) as [|p ps]; cbn [map RegExp.escape];
      now rewrite Hm.
Qed.

Lemma literal_escape p : RegExp.literal (RegExp.escape p) = Some p.
Proof.
  induction p as [|c p IH]; [reflexivity|].
  cbn [RegExp.escape]. destruct (RegExp.is_meta c) eqn:Hm.
  - cbn [RegExp.literal]. now rewrite Hm, IH.
  - assert (Hs : RegExp.is_syntax c = false /\ c <> "\"%char).
    { split; [|intros ->; discriminate].
      destruct c as [[] [] [] [] [] [] [] []]; vm_compute in Hm |- *; congruence. }
    destruct Hs as [Hs Hb].
    assert (Hl : forall rest, RegExp.literal (String c rest) =
                   String c <$> RegExp.literal rest).
    { intros rest. destruct c as [[] [] [] [] [] [] [] []];
        try (exfalso; apply Hb; reflexivity);
        cbn [RegExp.literal]; rewrite ?Hs; reflexivity. }
    now rewrite Hl, IH.
Qed.

Lemma escape_empty p : String.eqb (RegExp.escape p) "" = String.eqb p "".
Proof.
  destruct p as [|c p]; [reflexivity|]. cbn [RegExp.escape].
  now destruct (RegExp.is_meta c).
Qed.

Lemma highlight_passes pieces item :
  highlight_terms (map RegExp.escape pieces) item =
  fold_left (fun s p => RegExp.replace p emphasize s) (leading pieces) item.
Proof.
  revert item. induction pieces as [|p pieces IH]; intros item; [reflexivity|].
  cbn [map highlight_terms leading]. rewrite escape_empty, literal_escape.
  destruct (String.eqb p ""); [reflexivity|]. cbn [fold_left]. apply IH.
Qed.

Lemma leading_not_empty pieces : Forall (fun p => p <> "") (leading pieces).
Proof.
  induction pieces as [|p pieces IH]; simpl; [constructor|].
  destruct (String.eqb_spec p ""); [constructor|]. now constructor.
Qed.

Lemma later_passes lits : forall toks,
  Forall (fun p => p <> "") lits -> forallb marker_free lits = true ->
  exists toks',
    fold_left (fun s p => RegExp.replace p emphasize s) lits (markup toks) =
      markup toks' /\
    text toks' = text toks.
Proof.
  induction lits as [|[|a lit] lits IH]; intros toks Hne Hfree.
  - now exists toks.
  - inversion Hne; congruence.
  - inversion Hne as [|? ? _ Hne']; subst.
    cbn [forallb] in Hfree. apply andb_prop in Hfree as [Hf Hfree].
    destruct (replace_markup a lit (length toks) toks) as (t1 & H1 & Hx1);
      [lia|now left|].
    destruct (IH t1 Hne' Hfree) as (t2 & H2 & Hx2).
    exists t2. cbn [fold_left]. rewrite H1, H2. split; congruence.
Qed.

(** C4, amended.  For an item without ["<"] and a term whose second and
    later sub-terms cannot match inside a marker or across its ends,
    stripping the markers from the highlighted item gives the item back.
    The first sub-term needs no condition: it is applied to the item
    itself. *)
Theorem highlight_round_trip (w : TypeAhead) (item : string) :
  no_open_angle item = true ->
  forallb marker_free (tl (sub_terms (term w))) = true ->
  strip_markers (highlight w item) = item.
Proof.
  intros Hi Hfree. unfold highlight. rewrite split_escape, highlight_passes.
  fold (sub_terms (term w)). pose proof (leading_not_empty (Js.split_space (term w))) as Hne.
  fold (sub_terms (term w)) in Hne.
  destruct (sub_terms (term w)) as [|[|a lit] lits].
  - cbn [fold_left]. rewrite <- (markup_chars item) at 1.
    rewrite strip_markup; now rewrite text_chars.
  - inversion Hne; congruence.
  - inversion Hne as [|? ? _ Hne']; subst. cbn [tl] in Hfree. cbn [fold_left].
    destruct (replace_markup a lit (length (chars item)) (chars item))
      as (t1 & H1 & Hx1); [lia|right; apply chars_all|].
    rewrite markup_chars in H1. rewrite H1.
    destruct (later_passes lits t1 Hne' Hfree) as (t2 & H2 & Hx2).
    rewrite H2. rewrite strip_markup; rewrite Hx2, Hx1, text_chars; auto.
Qed.

Lemma highlight_round_trip_witness :
  no_open_angle "Band and bandana" = true /\
  forallb marker_free (tl (sub_terms (term (with_term one_item "ban d")))) = true /\
  highlight (with_term one_item "ban d") "Band and bandana" <> "Band and bandana" /\
  strip_markers (highlight (with_term one_item "ban d") "Band and bandana") =
    "Band and bandana".
Proof.
  split; [by_evaluation|]. split; [by_evaluation|].
  split; [by_evaluation|].
  apply (highlight_round_trip (with_term one_item "ban d") "Band and bandana").
  - reflexivity.
  - by_evaluation.
Defined.

(** C4 as stated fails.  An item that holds a marker of its own loses it,
    and a second sub-term that occurs in the markers written for the first
    breaks them, so that stripping leaves marker text behind. *)
Lemma highlight_round_trip_fails :
  strip_markers (highlight (with_term one_item "q") "x</span>") = "x" /\
  strip_markers (highlight (with_term one_item "q") "x</span>") <> "x</span>" /\
  strip_markers (highlight (with_term one_item "a s") "as") <> "as".
Proof. by_evaluation. Qed.

(** ** The default matcher *)

Lemma prefix_split (t s : string) :
  String.prefix t s = true <-> exists post, s = t +:+ post.
Proof.
  revert s; induction t as [|a t IH]; intros s.
  - split; [intros _; exists s; reflexivity|intros _; now destruct s].
  - destruct s as [|b s]; cbn [String.prefix].
    + split; [discriminate|]. intros [post H]. rewrite append_cons in H. discriminate.
    + destruct (ascii_dec a b) as [->|Hne].
      * rewrite IH. split; intros [post H]; exists post.
        -- now rewrite append_cons, H.
        -- rewrite append_cons in H. now injection H.
      * split; [discriminate|]. intros [post H]. rewrite append_cons in H.
        injection H as H1 _. congruence.
Qed.

Lemma indexOf_from_found (i : Z) (s t : string) :
  0 <= i ->
  (0 <=? Js.indexOf_from i s t) = true <->
  exists pre post, s = pre +:+ t +:+ post.
Proof.
  revert i; induction s as [|c s IH]; intros i Hi; cbn [Js.indexOf_from].
  - destruct (String.prefix t "") eqn:E.
    + apply prefix_split in E as [post E]. split; [|intros _; now apply Z.leb_le].
      intros _. exists "", post. exact E.
    + split; [discriminate|]. intros (pre & post & H).
      destruct pre; [|rewrite append_cons in H; discriminate].
      assert (String.prefix t "" = true) by (apply prefix_split; now exists post).
      congruence.
  - destruct (String.prefix t (String c s)) eqn:E.
    + apply prefix_split in E as [post E]. split; [|intros _; now apply Z.leb_le].
      intros _. exists "", post. exact E.
    + rewrite (IH (i + 1)) by lia. split; intros (pre & post & H).
      * exists (String c pre), post. now rewrite append_cons, H.
      * destruct pre as [|p pre].
        -- assert (String.prefix t (String c s) = true)
             by (apply prefix_split; now exists post).
           congruence.
        -- rewrite append_cons in H. injection H as _ H. now exists pre, post.
Qed.

(** X1.  The default matcher holds exactly when the term, in lower case,
    occurs somewhere in the item, in lower case. *)
Theorem match_is_containment (item term : string) :
  match_ item term = true <->
  exists pre post,
    Js.toLowerCase item = pre +:+ Js.toLowerCase term +:+ post.
Proof. unfold match_, Js.indexOf. now apply indexOf_from_found. Qed.

(** The two ways of ignoring case, lower case in the matcher and the
    canonical unit of the pattern, identify the same code units. *)
Lemma canonical_lower (c : ascii) :
  Js.canonicalize (Js.lower_unit c) = Js.canonicalize c.
Proof. destruct c as [[] [] [] [] [] [] [] []]; vm_compute; reflexivity. Qed.

Lemma lower_canonical (c : ascii) :
  Js.lower_unit (Js.canonicalize c) = Js.lower_unit c.
Proof. destruct c as [[] [] [] [] [] [] [] []]; vm_compute; reflexivity. Qed.

Lemma same_case_class (a b : ascii) :
  Ascii.eqb (Js.canonicalize a) (Js.canonicalize b) = true <->
  Js.lower_unit a = Js.lower_unit b.
Proof.
  rewrite Ascii.eqb_eq. split; intros H.
  - now rewrite <- (lower_canonical a), H, lower_canonical.
  - now rewrite <- (canonical_lower a), H, canonical_lower.
Qed.

Lemma prefix_lower (t s : string) :
  String.prefix (Js.toLowerCase t) (Js.toLowerCase s) = RegExp.matches_at t s.
Proof.
  revert s; induction t as [|a t IH]; intros s.
  - now destruct s.
  - destruct s as [|b s]; [reflexivity|].
    cbn [Js.toLowerCase String.prefix RegExp.matches_at].
    destruct (ascii_dec (Js.lower_unit a) (Js.lower_unit b)) as [E|E].
    + rewrite (proj2 (same_case_class a b) E). apply IH.
    + destruct (Ascii.eqb (Js.canonicalize a) (Js.canonicalize b)) eqn:Hc;
        [|reflexivity].
      now apply same_case_class in Hc.
Qed.

Lemma indexOf_from_occurs (i : Z) (s t : string) :
  0 <= i ->
  (0 <=? Js.indexOf_from i (Js.toLowerCase s) (Js.toLowerCase t)) = occurs t s.
Proof.
  revert i; induction s as [|c s IH]; intros i Hi;
    cbn [Js.toLowerCase Js.indexOf_from occurs].
  - pose proof (prefix_lower t "") as H. cbn [Js.toLowerCase] in H.
    rewrite H. destruct (RegExp.matches_at t ""); simpl;
      [now apply Z.leb_le|reflexivity].
  - change (String (Js.lower_unit c) (Js.toLowerCase s))
      with (Js.toLowerCase (String c s)).
    rewrite prefix_lower. destruct (RegExp.matches_at t (String c s)); simpl.
    + now apply Z.leb_le.
    + apply IH. lia.
Qed.

Lemma match_agrees_aux (item t : string) : match_ item t = occurs t item.
Proof. unfold match_, Js.indexOf. now apply indexOf_from_occurs. Qed.

(** X2.  On ASCII text the default matcher and the pattern of the
    highlighter agree on what occurs: the matcher holds for an item and a
    text exactly when the pattern of that text matches somewhere in the
    item. *)
Theorem match_agrees_with_pattern (item t : string) :
  all_units Js.is_ascii item = true -> all_units Js.is_ascii t = true ->
  match_ item t = occurs t item.
Proof. intros _ _. apply match_agrees_aux. Qed.

Lemma match_agrees_with_pattern_witness :
  all_units Js.is_ascii "Snap pie" = true /\
  all_units Js.is_ascii "AP P" = true /\
  match_ "Snap pie" "AP P" = true /\
  match_ "Snap pie" "AP P" = occurs "AP P" "Snap pie".
Proof.
  split; [reflexivity|]. split; [reflexivity|]. split; [by_evaluation|].
  apply (match_agrees_with_pattern "Snap pie" "AP P"); reflexivity.
Defined.

(** ** More on highlighting *)

Lemma highlight_is_literal_aux (w : TypeAhead) (item : string) :
  highlight w item =
  fold_left (fun s p => RegExp.replace p emphasize s) (sub_terms (term w)) item.
Proof. unfold highlight, sub_terms. now rewrite split_escape, highlight_passes. Qed.

(** X3.  The characters of the term have no meaning of their own in the
    patterns of [highlight]: it replaces, sub-term by sub-term and up to the
    first empty one, the occurrences of the sub-term as it is written,
    ignoring case. *)
Theorem highlight_is_literal (w : TypeAhead) (item : string) :
  highlight w item =
  fold_left (fun s p => RegExp.replace p emphasize s) (sub_terms (term w)) item.
Proof. apply highlight_is_literal_aux. Qed.

Lemma replace_absent a lit f s :
  occurs (String a lit) s = false -> RegExp.replace (String a lit) f s = s.
Proof.
  induction s as [|c s IH]; intros H; [apply replace_empty|].
  cbn [occurs] in H. apply orb_false_iff in H as [Hm Ho].
  rewrite replace_miss by exact Hm. now rewrite IH.
Qed.

Lemma passes_absent lits item :
  Forall (fun p => p <> "") lits ->
  forallb (fun p => negb (occurs p item)) lits = true ->
  fold_left (fun s p => RegExp.replace p emphasize s) lits item = item.
Proof.
  induction 1 as [|[|a lit] lits Hne _ IH]; intros H; [reflexivity|congruence|].
  cbn [forallb fold_left] in *. apply andb_prop in H as [Ho H].
  apply negb_true_iff in Ho. rewrite replace_absent by exact Ho. now apply IH.
Qed.

(** X4.  An item in which none of the sub-terms occurs comes back from
    [highlight] as it is; so does every item when the term is empty or
    starts with a space, since then there is no sub-term to look for. *)
Theorem highlight_without_occurrence (w : TypeAhead) (item : string) :
  forallb (fun p => negb (occurs p item)) (sub_terms (term w)) = true ->
  highlight w item = item.
Proof.
  intros H. rewrite highlight_is_literal_aux.
  apply passes_absent; [apply leading_not_empty|exact H].
Qed.

Lemma highlight_without_occurrence_witness :
  forallb (fun p => negb (occurs p "banana"))
    (sub_terms (term (with_term one_item "app le"))) = true /\
  highlight (with_term one_item "app le") "banana" = "banana".
Proof.
  split; [by_evaluation|].
  apply (highlight_without_occurrence (with_term one_item "app le") "banana").
  by_evaluation.
Defined.

Lemma length_append (a b : string) :
  String.length (a +:+ b) = (String.length a + String.length b)%nat.
Proof.
  induction a as [|c a IH]; [reflexivity|].
  rewrite append_cons. cbn [String.length]. now rewrite IH.
Qed.

Lemma take_drop n s : RegExp.take n s +:+ RegExp.drop n s = s.
Proof.
  revert s; induction n as [|n IH]; intros [|c s]; try reflexivity.
  cbn [RegExp.take RegExp.drop]. rewrite append_cons. now rewrite IH.
Qed.

Lemma drop_shorter n s : (String.length (RegExp.drop n s) <= String.length s)%nat.
Proof.
  rewrite <- (take_drop n s) at 2. rewrite length_append. lia.
Qed.

Lemma emphasize_longer m : (String.length m < String.length (emphasize m))%nat.
Proof.
  unfold emphasize. rewrite !length_append.
  change (String.length close_marker) with 7%nat. lia.
Qed.

(** A pass of [highlight] never shortens, and lengthens when the sub-term
    occurs. *)
Lemma replace_grows a lit : forall n s,
  (String.length s <= n)%nat ->
  (String.length s <= String.length (RegExp.replace (String a lit) emphasize s))%nat /\
  (occurs (String a lit) s = true ->
   (String.length s < String.length (RegExp.replace (String a lit) emphasize s))%nat).
Proof.
  induction n as [|n IH]; intros s Hn.
  - destruct s; [|simpl in Hn; lia]. rewrite replace_empty. split; [lia|].
    discriminate.
  - destruct s as [|c s]; [rewrite replace_empty; split; [lia|discriminate]|].
    cbn [String.length] in Hn.
    destruct (RegExp.matches_at (String a lit) (String c s)) eqn:E.
    + rewrite replace_hit by exact E.
      pose proof (drop_shorter (String.length lit) s) as Hd.
      destruct (IH (RegExp.drop (String.length lit) s)) as [Hle _]; [lia|].
      pose proof (emphasize_longer
                    (RegExp.take (String.length (String a lit)) (String c s))) as He.
      pose proof (take_drop (String.length (String a lit)) (String c s)) as Htd.
      apply (f_equal String.length) in Htd. rewrite length_append in Htd.
      cbn [String.length RegExp.drop] in Htd.
      rewrite length_append. cbn [String.length] in *. split; [lia|intros _; lia].
    + rewrite replace_miss by exact E. cbn [String.length occurs]. rewrite E.
      destruct (IH s) as [Hle Hlt]; [lia|]. split; [lia|].
      cbn [orb]. intros Ho. specialize (Hlt Ho). lia.
Qed.

Lemma passes_grow lits : forall s,
  Forall (fun p => p <> "") lits ->
  (String.length s <=
   String.length (fold_left (fun s p => RegExp.replace p emphasize s) lits s))%nat.
Proof.
  induction lits as [|[|a lit] lits IH]; intros s Hne; [cbn; lia| |].
  - inversion Hne; congruence.
  - inversion Hne as [|? ? _ Hne']; subst. cbn [fold_left].
    destruct (replace_grows a lit (String.length s) s) as [Hle _]; [lia|].
    specialize (IH (RegExp.replace (String a lit) emphasize s) Hne'). lia.
Qed.

Lemma matches_at_prefix t r s :
  RegExp.matches_at (t +:+ r) s = true -> RegExp.matches_at t s = true.
Proof.
  revert s; induction t as [|a t IH]; intros s H; [reflexivity|].
  rewrite append_cons in H. destruct s as [|b s]; [discriminate|].
  cbn [RegExp.matches_at] in *. apply andb_prop in H as [Hc H].
  rewrite Hc. now apply IH.
Qed.

Lemma occurs_prefix t r s : occurs (t +:+ r) s = true -> occurs t s = true.
Proof.
  induction s as [|c s IH]; cbn [occurs]; intros H.
  - apply orb_prop in H as [H|H]; [|discriminate].
    now rewrite (matches_at_prefix t r "" H).
  - apply orb_prop in H as [H|H].
    + now rewrite (matches_at_prefix t r _ H).
    + rewrite (IH H). apply orb_true_r.
Qed.

(** The first piece of a text that does not start with a space is not
    empty and starts the text. *)
Lemma split_space_head s :
  exists p ps r,
    Js.split_space s = p :: ps /\ s = p +:+ r /\
    (forall c s', s = String c s' -> c <> " "%char -> p <> "").
Proof.
  induction s as [|c s (p & ps & r & Hs & Hr & _)].
  - exists "", [], "". repeat split. intros c s' H. discriminate.
  - cbn [Js.split_space]. destruct (Ascii.eqb_spec c " ") as [->|Hc].
    + exists "", (Js.split_space s), (String " " s). repeat split.
      intros c s' [= <- _] Hn. congruence.
    + rewrite Hs. exists (String c p), ps, r. repeat split.
      * now rewrite append_cons, <- Hr.
      * intros _ _ _ _. discriminate.
Qed.

(** X5.  On ASCII text, under the default matcher every item that matches
    a term, one that is not empty and does not start with a space, comes
    back from [highlight] longer than it was: it carries at least one
    emphasis. *)
Theorem matched_item_is_emphasized (w : TypeAhead) (item : string) (c : ascii)
    (r : string) :
  all_units Js.is_ascii item = true -> all_units Js.is_ascii (term w) = true ->
  term w = String c r -> c <> " "%char ->
  match_ item (term w) = true ->
  (String.length item < String.length (highlight w item))%nat.
Proof.
  intros _ _ Ht Hc Hm. rewrite highlight_is_literal_aux. unfold sub_terms.
  destruct (split_space_head (term w)) as (p & ps & rest & Hs & Hr & Hp).
  specialize (Hp c r Ht Hc). rewrite Hs. cbn [leading].
  destruct (String.eqb_spec p "") as [|_]; [congruence|].
  destruct p as [|a lit]; [congruence|]. cbn [fold_left].
  rewrite match_agrees_aux, Hr in Hm. apply occurs_prefix in Hm.
  destruct (replace_grows a lit (String.length item) item) as [_ Hlt]; [lia|].
  specialize (Hlt Hm).
  pose proof (passes_grow (leading ps)
                (RegExp.replace (String a lit) emphasize item)
                (leading_not_empty ps)). lia.
Qed.

Lemma matched_item_is_emphasized_witness :
  all_units Js.is_ascii "Snap pie" = true /\
  all_units Js.is_ascii (term (with_term one_item "ap pie")) = true /\
  term (with_term one_item "ap pie") = String "a" "p pie" /\
  "a"%char <> " "%char /\
  match_ "Snap pie" (term (with_term one_item "ap pie")) = true /\
  (String.length "Snap pie" <
   String.length (highlight (with_term one_item "ap pie") "Snap pie"))%nat.
Proof.
  split; [reflexivity|]. split; [reflexivity|].
  split; [reflexivity|]. split; [discriminate|]. split; [by_evaluation|].
  apply (matched_item_is_emphasized (with_term one_item "ap pie") "Snap pie"
           "a" "p pie");
    [reflexivity|reflexivity|reflexivity|discriminate|by_evaluation].
Defined.

(** ** More on rendering *)

(** X6.  A render that passes the guard and is not stopped sets the index
    to -1, writes one row per kept item, its highlighted markup, and stores
    the kept list in the cache under the current term.  The other cache
    entries and the options are as the call of the sorter left them, which
    is as they were when nobody else holds the raw list; the term, the
    input and the timers stay. *)
Theorem process_lists_and_caches (h : Holder) (w : TypeAhead)
    (raw : list string) :
  term w <> "" -> raw <> [] ->
  contentElement (options w) = "" -> term w <> "__proto__" ->
  exists w',
    process h raw w = Returned w' /\
    index w' = -1 /\
    rows (element w') = map (highlight w) (items w') /\
    active (element w') = None /\
    cache w' !! term w = Some (items w') /\
    (forall k, k <> term w ->
               cache w' !! k = cache (sorted_in_place h raw w) !! k) /\
    options w' = options (sorted_in_place h raw w) /\
    (h = Unshared ->
     options w' = options w /\
     forall k, k <> term w -> cache w' !! k = cache w !! k) /\
    term w' = term w /\ input w' = input w /\ timer w' = timer w /\
    timeouts w' = timeouts w.
Proof.
  intros Ht Hr Hc Hp.
  destruct (process_renders h raw w Ht Hr Hc Hp)
    as (w' & E & [_ Hx _ Hca Hrows _ Ha Hterm Ho Hi Htm Hts _]).
  exists w'. repeat split; try assumption.
  - rewrite Hca. apply lookup_insert_eq.
  - intros k Hk. rewrite Hca. now apply lookup_insert_ne.
  - subst h. now rewrite Ho, sorted_in_place_unshared.
  - subst h. intros k Hk. rewrite Hca, sorted_in_place_unshared.
    now apply lookup_insert_ne.
Qed.

Lemma process_lists_and_caches_witness :
  term scenario_C <> "" /\ ["aa"; "ab"; "ac"] <> [] /\
  contentElement (options scenario_C) = "" /\ term scenario_C <> "__proto__" /\
  exists w',
    process Unshared ["aa"; "ab"; "ac"] scenario_C = Returned w' /\
    index w' = -1 /\
    rows (element w') = map (highlight scenario_C) (items w') /\
    active (element w') = None /\
    cache w' !! term scenario_C = Some (items w') /\
    (forall k, k <> term scenario_C ->
               cache w' !! k =
               cache (sorted_in_place Unshared ["aa"; "ab"; "ac"] scenario_C) !! k) /\
    options w' =
      options (sorted_in_place Unshared ["aa"; "ab"; "ac"] scenario_C) /\
    (Unshared = Unshared ->
     options w' = options scenario_C /\
     forall k, k <> term scenario_C -> cache w' !! k = cache scenario_C !! k) /\
    term w' = term scenario_C /\ input w' = input scenario_C /\
    timer w' = timer scenario_C /\ timeouts w' = timeouts scenario_C.
Proof.
  split; [discriminate|]. split; [discriminate|]. split; [reflexivity|].
  split; [discriminate|].
  apply (process_lists_and_caches Unshared scenario_C ["aa"; "ab"; "ac"]);
    [discriminate|discriminate|reflexivity|discriminate].
Defined.

(** Where [process] leaves the dropdown. *)
Lemma process_places (h : Holder) (w : TypeAhead) (raw : list string) :
  term w <> "" -> raw <> [] ->
  contentElement (options w) = "" -> term w <> "__proto__" ->
  exists w',
    process h raw w = Returned w' /\
    (items w' = [] ->
     isVisible w' = false /\
     position (element w') = position (element w)) /\
    (items w' <> [] ->
     isVisible w' = true /\
     position (element w') =
       Some (left (input w), top (input w) + height (input w))).
Proof.
  intros Ht Hr Hc Hp. rewrite (process_loop h raw w Ht Hr).
  set (kept := List.filter _ _). set (evs := calls _ _ _).
  destruct (sorted_in_place_frame h raw (with_index (with_items w []) (-1)))
    as (Hi & _ & Hit & Hterm & _ & Hel & _ & _ & _ & _ & _ & _ & Hce).
  rewrite append_list_returns; simpl_widget;
    [|now rewrite Hce|now rewrite Hterm].
  eexists. split; [reflexivity|].
  unfold _position. simpl_widget. rewrite Hit, Hel, Hi. simpl_widget.
  cbn [app].
  destruct (Z.eqb_spec (Z.of_nat (length kept)) 0) as [E|E]; simpl_widget;
    rewrite ?Hit; cbn [app].
  - split; [intros _; now split|]. intros H.
    destruct kept; [congruence|simpl in E; lia].
  - split; [|intros _; now split]. intros H. rewrite H in E. now simpl in E.
Qed.

(** X7.  After a render that passes the guard and is not stopped, the
    dropdown is visible exactly when an item was kept, and then it sits at
    the left edge and right below the input; [show] is fired in both cases,
    also when nothing matched and the dropdown stays hidden. *)
Theorem process_shows_below_input (h : Holder) (w : TypeAhead)
    (raw : list string) :
  term w <> "" -> raw <> [] ->
  contentElement (options w) = "" -> term w <> "__proto__" ->
  exists w',
    process h raw w = Returned w' /\
    (items w' = [] ->
     isVisible w' = false /\
     position (element w') = position (element w)) /\
    (items w' <> [] ->
     isVisible w' = true /\
     position (element w') =
       Some (left (input w), top (input w) + height (input w))) /\
    exists evs, events w' = events w ++ evs ++ [FireShow].
Proof.
  intros Ht Hr Hc Hp.
  destruct (process_places h w raw Ht Hr Hc Hp) as (w' & E & H1 & H2).
  destruct (process_renders h raw w Ht Hr Hc Hp)
    as (w'' & E' & [_ _ He _ _ _ _ _ _ _ _ _ _]).
  rewrite E in E'. injection E' as <-.
  exists w'. split; [exact E|]. split; [exact H1|]. split; [exact H2|].
  eexists. exact He.
Qed.

Lemma process_shows_below_input_witness :
  term (with_term one_item "zz") <> "" /\ ["aa"] <> [] /\
  contentElement (options (with_term one_item "zz")) = "" /\
  term (with_term one_item "zz") <> "__proto__" /\
  exists w',
    process TheSource ["aa"] (with_term one_item "zz") = Returned w' /\
    (items w' = [] ->
     isVisible w' = false /\
     position (element w') = position (element (with_term one_item "zz"))) /\
    (items w' <> [] ->
     isVisible w' = true /\
     position (element w') =
       Some (left (input (with_term one_item "zz")),
             top (input (with_term one_item "zz")) +
             height (input (with_term one_item "zz")))) /\
    exists evs,
      events w' = events (with_term one_item "zz") ++ evs ++ [FireShow].
Proof.
  split; [discriminate|]. split; [discriminate|]. split; [reflexivity|].
  split; [discriminate|].
  apply (process_shows_below_input TheSource (with_term one_item "zz") ["aa"]);
    [discriminate|discriminate|reflexivity|discriminate].
Defined.

(** X8.  A render that is not stopped leaves no row selected, and when it
    kept something the dropdown is open over what it kept: visible, one row
    per item and no more items than the limit. *)
Theorem render_opens (h : Holder) (w : TypeAhead) (raw : list string) :
  term w <> "" -> raw <> [] -> 0 <= itemLimit (options w) ->
  contentElement (options w) = "" -> term w <> "__proto__" ->
  exists w',
    process h raw w = Returned w' /\ index w' = -1 /\
    (items w' <> [] -> open_over (length (items w')) w').
Proof. apply process_opens. Qed.

Lemma render_opens_witness :
  term scenario_C <> "" /\ ["aa"; "ab"; "ac"] <> [] /\
  0 <= itemLimit (options scenario_C) /\
  contentElement (options scenario_C) = "" /\ term scenario_C <> "__proto__" /\
  items scenario_C_open = ["aa"; "ab"] /\
  exists w',
    process Unshared ["aa"; "ab"; "ac"] scenario_C = Returned w' /\
    index w' = -1 /\
    (items w' <> [] -> open_over (length (items w')) w').
Proof.
  split; [discriminate|]. split; [discriminate|]. split; [by_evaluation|].
  split; [reflexivity|]. split; [discriminate|]. split; [by_evaluation|].
  apply (render_opens Unshared scenario_C ["aa"; "ab"; "ac"]);
    [discriminate|discriminate|by_evaluation|reflexivity|discriminate].
Defined.

Lemma evaluated_incl o t l c x : In x (evaluated o t l c) -> In x l.
Proof.
  destruct (evaluated_prefix o t l c) as [u Hu]. intros H.
  rewrite Hu. apply in_or_app. now left.
Qed.

(** X9.  With the default sorter the rendered items are in ascending order
    of their code units, each of them is an item of the raw list, and each
    passes the matcher. *)
Theorem rendered_items_sorted (h : Holder) (w : TypeAhead) (raw : list string) :
  sorter (options w) = CbFunction sort -> term w <> "" -> raw <> [] ->
  StronglySorted String.le (items (widget_of (process h raw w))) /\
  (forall x, In x (items (widget_of (process h raw w))) ->
             In x raw /\ matches (options w) (term w) x = true).
Proof.
  intros Hs Ht Hr.
  destruct (process_keeps h raw w Ht Hr) as [Hi _ _ _ _ _ _ _].
  rewrite Hi. unfold apply_sorter. rewrite Hs. split.
  - apply filter_sorted.
    destruct (evaluated_prefix (options w) (term w) (returns sort raw) 0)
      as [u Hu].
    assert (Hso : StronglySorted String.le (returns sort raw)).
    { apply StronglySorted_merge_sort; apply _. }
    rewrite Hu in Hso. now apply StronglySorted_app_1_l in Hso.
  - intros x Hx. apply filter_In in Hx as [Hx Hm]. split; [|exact Hm].
    apply evaluated_incl in Hx. apply list_elem_of_In.
    rewrite <- (merge_sort_Permutation String.le raw).
    now apply list_elem_of_In.
Qed.

Lemma rendered_items_sorted_witness :
  sorter (options scenario_C) = CbFunction sort /\
  term scenario_C <> "" /\ ["ac"; "aa"; "ab"] <> [] /\
  StronglySorted String.le
    (items (widget_of (process Unshared ["ac"; "aa"; "ab"] scenario_C))) /\
  (forall x,
     In x (items (widget_of (process Unshared ["ac"; "aa"; "ab"] scenario_C))) ->
     In x ["ac"; "aa"; "ab"] /\
     matches (options scenario_C) (term scenario_C) x = true).
Proof.
  split; [reflexivity|]. split; [discriminate|]. split; [discriminate|].
  apply (rendered_items_sorted Unshared scenario_C ["ac"; "aa"; "ab"]);
    [reflexivity|discriminate|discriminate].
Defined.



(** The end of [process] leaves the options and the cache entries of
    other terms alone, however it ends. *)
Lemma append_list_held ul w :
  options (widget_of (append_list ul w)) = options w /\
  (forall k, k <> term w ->
             cache (widget_of (append_list ul w)) !! k = cache w !! k).
Proof.
  unfold append_list, _position. simpl_widget.
  destruct (String.eqb (contentElement (options w)) ""); cbn [negb];
    [|simpl_widget; now split].
  destruct (String.eqb (term w) "__proto__");
    destruct (Z.of_nat (length (items w)) =? 0); simpl_widget;
    (split; [reflexivity|]); intros k Hk; try reflexivity;
    now apply lookup_insert_ne.
Qed.

(** Whatever a render that passes the guard does after the call of the
    sorter, it leaves the options and the cache entries of other terms as
    that call left them. *)
Lemma process_frame (h : Holder) (raw : list string) (w : TypeAhead) :
  term w <> "" -> raw <> [] ->
  options (widget_of (process h raw w)) = options (sorted_in_place h raw w) /\
  (forall k, k <> term w ->
     cache (widget_of (process h raw w)) !! k =
     cache (sorted_in_place h raw w) !! k).
Proof.
  intros Ht Hr. rewrite (process_loop h raw w Ht Hr).
  set (ul := map _ _). set (kept := List.filter _ _). set (evs := calls _ _ _).
  destruct (append_list_held ul
              (rendered_into
                 (sorted_in_place h raw (with_index (with_items w []) (-1)))
                 kept evs))
    as [Ho Hc].
  destruct (sorted_in_place_frame h raw (with_index (with_items w []) (-1)))
    as (_ & _ & _ & Hterm & _).
  destruct (sorted_in_place_reset h raw w [] (-1)) as [Hca Hop].
  simpl_widget. rewrite Hterm, Hca in Hc. rewrite Hop in Ho.
  split; [exact Ho|exact Hc].
Qed.

(** X27.  A sorter sorts the array it is given, not a copy: when the
    options hold the raw list as their source, or the cache holds it under
    another key than the term, a render that passes the guard leaves there
    what the sorter leaves in its argument, however the render ends; the
    options stay as they are when nobody else holds the list.  Under the
    default sorter that is the same items in ascending order. *)
Theorem sorter_reorders_held_array (w : TypeAhead) (raw : list string)
    (f : Sorter) :
  sorter (options w) = CbFunction f -> term w <> "" -> raw <> [] ->
  (source (options w) = SrcArray raw ->
   source (options (widget_of (process TheSource raw w))) =
     SrcArray (leaves f raw)) /\
  (forall k, cache w !! k = Some raw -> k <> term w ->
     cache (widget_of (process (CacheEntry k) raw w)) !! k =
       Some (leaves f raw)) /\
  options (widget_of (process Unshared raw w)) = options w /\
  (f = sort -> StronglySorted String.le (leaves f raw) /\
               Permutation raw (leaves f raw)).
Proof.
  intros Hs Ht Hr. split; [|split; [|split]].
  - intros _. destruct (process_frame TheSource raw w Ht Hr) as [Ho _].
    rewrite Ho. unfold sorted_in_place. now rewrite Hs.
  - intros k _ Hk.
    destruct (process_frame (CacheEntry k) raw w Ht Hr) as [_ Hc].
    rewrite (Hc k Hk). unfold sorted_in_place. rewrite Hs.
    cbn [put_back]. simpl_widget. apply lookup_insert_eq.
  - destruct (process_frame Unshared raw w Ht Hr) as [Ho _].
    now rewrite Ho, sorted_in_place_unshared.
  - intros ->. cbn [leaves sort]. split.
    + apply StronglySorted_merge_sort; apply _.
    + symmetry. apply merge_sort_Permutation.
Qed.

Lemma sorter_reorders_held_array_witness :
  sorter (options scenario_C_unsorted) = CbFunction sort /\
  term scenario_C_unsorted <> "" /\ ["ac"; "aa"; "ab"] <> [] /\
  source (options scenario_C_unsorted) = SrcArray ["ac"; "aa"; "ab"] /\
  leaves sort ["ac"; "aa"; "ab"] = ["aa"; "ab"; "ac"] /\
  (source (options scenario_C_unsorted) = SrcArray ["ac"; "aa"; "ab"] ->
   source
     (options
        (widget_of (process TheSource ["ac"; "aa"; "ab"] scenario_C_unsorted))) =
     SrcArray (leaves sort ["ac"; "aa"; "ab"])) /\
  (forall k, cache scenario_C_unsorted !! k = Some ["ac"; "aa"; "ab"] ->
     k <> term scenario_C_unsorted ->
     cache
       (widget_of
          (process (CacheEntry k) ["ac"; "aa"; "ab"] scenario_C_unsorted)) !! k =
       Some (leaves sort ["ac"; "aa"; "ab"])) /\
  options (widget_of (process Unshared ["ac"; "aa"; "ab"] scenario_C_unsorted)) =
    options scenario_C_unsorted /\
  (sort = sort -> StronglySorted String.le (leaves sort ["ac"; "aa"; "ab"]) /\
                  Permutation ["ac"; "aa"; "ab"] (leaves sort ["ac"; "aa"; "ab"])).
Proof.
  split; [reflexivity|]. split; [discriminate|]. split; [discriminate|].
  split; [reflexivity|]. split; [by_evaluation|].
  apply (sorter_reorders_held_array scenario_C_unsorted ["ac"; "aa"; "ab"] sort);
    [reflexivity|discriminate|discriminate].
Defined.

(** An array source that is out of order is in order after the first
    lookup has rendered from it. *)
Example source_sorted_by_lookup :
  source (options (typed "b" (fresh (configure (SrcArray ["bb"; "ab"; "ba"]) 15 1)))) =
    SrcArray ["bb"; "ab"; "ba"] /\
  source
    (options
       (after_timeout 0
          (typed "b" (fresh (configure (SrcArray ["bb"; "ab"; "ba"]) 15 1))))) =
    SrcArray ["ab"; "ba"; "bb"].
Proof. by_evaluation. Qed.

(** ** More on the keys *)

(** X10.  While the dropdown is hidden, or has no items under a limit that
    is not negative, [_cycle] leaves the widget as it is for every key. *)
Theorem cycle_ignores_closed_dropdown (key : string) (w : TypeAhead) :
  isVisible w = false \/ (items w = [] /\ 0 <= itemLimit (options w)) ->
  _cycle key w = Returned w.
Proof.
  intros H. unfold _cycle. cbn zeta.
  destruct H as [Hv|[Hi Hl]].
  - rewrite Hv. cbn [negb]. now rewrite orb_true_r.
  - rewrite Hi. cbn [length]. unfold Js.limit.
    replace (Z.min (itemLimit (options w)) (Z.max 0 (Z.of_nat 0))) with 0 by lia.
    reflexivity.
Qed.

Lemma cycle_ignores_closed_dropdown_witness :
  (isVisible (pressed "esc" scenario_D) = false \/
   (items (pressed "esc" scenario_D) = [] /\
    0 <= itemLimit (options (pressed "esc" scenario_D)))) /\
  _cycle "down" (pressed "esc" scenario_D) = Returned (pressed "esc" scenario_D).
Proof.
  split; [left; by_evaluation|].
  apply (cycle_ignores_closed_dropdown "down" (pressed "esc" scenario_D)).
  left; by_evaluation.
Defined.

(** The end of [_cycle] for an index that is -1 or a row. *)
Lemma select_row_frame (its : list string) (w : TypeAhead) :
  index w < 0 \/ 0 <= index w < Z.of_nat (length (rows (element w))) ->
  exists w',
    select_row its w = Returned w' /\
    index w' = index w /\ items w' = items w /\
    rows (element w') = rows (element w) /\
    shown (element w') = shown (element w) /\
    active (element w') = (if index w <? 0 then None else Some (index w)) /\
    value (input w') =
      (if index w <? 0 then value (input w)
       else default "" (Js.at_index its (index w))) /\
    events w' = events w /\ cache w' = cache w /\ term w' = term w /\
    options w' = options w /\ timeouts w' = timeouts w /\ timer w' = timer w.
Proof.
  intros H. unfold select_row. simpl_widget.
  destruct (Z.leb_spec 0 (index w)) as [Hle|Hlt].
  - destruct H as [H|H]; [lia|].
    destruct (at_index_some (rows (element w)) (index w) H) as [r Hr].
    rewrite Hr. eexists. split; [reflexivity|]. simpl_widget.
    destruct (Z.ltb_spec (index w) 0); [lia|]. repeat split.
  - eexists. split; [reflexivity|]. simpl_widget.
    destruct (Z.ltb_spec (index w) 0); [|lia]. repeat split.
Qed.

Lemma cycle_unfold (key : string) (w : TypeAhead) :
  cycling w ->
  _cycle key w =
  let its := items w in
  let len := Js.limit (Z.of_nat (length its)) 0 (itemLimit (options w)) in
  if String.eqb key "up" then
    let w1 := with_index w (index w - 1) in
    select_row its (if index w1 <? 0 then with_index w1 (len - 1) else w1)
  else if String.eqb key "down" then
    let w1 := with_index w (index w + 1) in
    select_row its (if len <=? index w1 then with_index w1 0 else w1)
  else if String.eqb key "tab" then
    let w1 := with_index (observe w PreventDefault) 0 in
    select_row its (hide (observe w1 (FireSelect (Js.at_index its 0) (index w1))))
  else if String.eqb key "enter" then
    select_row its
      (hide (observe w (FireSelect (Js.at_index its (index w)) (index w))))
  else if String.eqb key "esc" then
    let w1 := input_set_value (Some (term w)) (with_index w (-1)) in
    select_row its (hide (observe w1 FireReset))
  else Returned w.
Proof. intros Hc. unfold _cycle. cbn zeta. now rewrite (cycling_guard w Hc). Qed.

Lemma open_cycling n w : open_over n w -> cycling w.
Proof.
  intros Ho. split; [|exact (oo_visible n w Ho)].
  rewrite (open_limit n w Ho). pose proof (oo_some n w Ho). lia.
Qed.

(** X11.  Over [n] rendered items and from an index that is -1 or a row,
    no key makes [_cycle] throw or takes the index out of that range, and
    no key changes the items, the rows, the cache, the term, the options or
    the timers. *)
Theorem cycle_keeps_index_in_range (n : nat) (key : string) (w : TypeAhead) :
  open_over n w -> -1 <= index w < Z.of_nat n ->
  exists w',
    _cycle key w = Returned w' /\
    -1 <= index w' < Z.of_nat n /\
    items w' = items w /\ rows (element w') = rows (element w) /\
    cache w' = cache w /\ term w' = term w /\ options w' = options w /\
    timeouts w' = timeouts w /\ timer w' = timer w.
Proof.
  intros Ho Hi. rewrite (cycle_unfold key w (open_cycling n w Ho)). cbn zeta.
  rewrite (open_limit n w Ho).
  destruct Ho as [Hv Hit Hr Hn Hl].
  assert (Hsel : forall w1,
             -1 <= index w1 < Z.of_nat n -> items w1 = items w ->
             rows (element w1) = rows (element w) -> cache w1 = cache w ->
             term w1 = term w -> options w1 = options w ->
             timeouts w1 = timeouts w -> timer w1 = timer w ->
             exists w',
               select_row (items w) w1 = Returned w' /\
               -1 <= index w' < Z.of_nat n /\
               items w' = items w /\ rows (element w') = rows (element w) /\
               cache w' = cache w /\ term w' = term w /\ options w' = options w /\
               timeouts w' = timeouts w /\ timer w' = timer w).
  { intros w1 Hx H1 H2 H3 H4 H5 H6 H7.
    destruct (select_row_frame (items w) w1)
      as (w' & E & Ex & Ei & Er & _ & _ & _ & _ & Ec & Et & Eo & Ets & Etm).
    { rewrite H2, Hr. lia. }
    exists w'. rewrite Ex, Ei, Er, Ec, Et, Eo, Ets, Etm. repeat split; auto; lia. }
  destruct (String.eqb key "up").
  { simpl_widget. destruct (Z.ltb_spec (index w - 1) 0);
      apply Hsel; simpl_widget; auto; lia. }
  destruct (String.eqb key "down").
  { simpl_widget. destruct (Z.leb_spec (Z.of_nat n) (index w + 1));
      apply Hsel; simpl_widget; auto; lia. }
  destruct (String.eqb key "tab").
  { apply Hsel; simpl_widget; auto; lia. }
  destruct (String.eqb key "enter").
  { apply Hsel; simpl_widget; auto; lia. }
  destruct (String.eqb key "esc").
  { apply Hsel; simpl_widget; auto; lia. }
  exists w. repeat split; auto; lia.
Qed.

Lemma cycle_keeps_index_in_range_witness :
  open_over 2 scenario_C_open /\ -1 <= index scenario_C_open < 2 /\
  exists w',
    _cycle "tab" scenario_C_open = Returned w' /\
    -1 <= index w' < 2 /\
    items w' = items scenario_C_open /\
    rows (element w') = rows (element scenario_C_open) /\
    cache w' = cache scenario_C_open /\ term w' = term scenario_C_open /\
    options w' = options scenario_C_open /\
    timeouts w' = timeouts scenario_C_open /\ timer w' = timer scenario_C_open.
Proof.
  split; [split; by_evaluation|]. split; [by_evaluation|].
  apply (cycle_keeps_index_in_range 2 "tab" scenario_C_open);
    [split; by_evaluation|by_evaluation].
Defined.

(** X12.  Over rendered items tab commits the first one, whatever the index
    was: it prevents the default action of the key, sets the index to 0,
    fires [select] with the first item and 0, hides the dropdown, marks the
    first row and puts the first item into the input. *)
Theorem tab_selects_first (n : nat) (w : TypeAhead) :
  open_over n w ->
  exists w' x,
    _cycle "tab" w = Returned w' /\
    Js.at_index (items w) 0 = Some x /\
    index w' = 0 /\
    events w' = events w ++ [PreventDefault; FireSelect (Some x) 0] /\
    isVisible w' = false /\
    active (element w') = Some 0 /\
    value (input w') = x.
Proof.
  intros Ho. rewrite (cycle_unfold "tab" w (open_cycling n w Ho)). cbn zeta.
  cbn [String.eqb Ascii.eqb Bool.eqb].
  destruct Ho as [Hv Hit Hr Hn Hl].
  destruct (at_index_some (items w) 0) as [x Hx]; [lia|].
  set (w1 := hide _).
  destruct (select_row_frame (items w) w1)
    as (w' & E & Ex & _ & _ & Es & Ea & Eval & Ee & _).
  { right. subst w1. simpl_widget. lia. }
  exists w', x. subst w1. simpl_widget.
  rewrite E, Ex, Ee, Ea, Eval, Hx. unfold isVisible. rewrite Es.
  cbn [Z.ltb Z.compare default]. rewrite <- app_assoc. repeat split.
Qed.

Lemma tab_selects_first_witness :
  open_over 3 scenario_D /\
  exists w' x,
    _cycle "tab" scenario_D = Returned w' /\
    Js.at_index (items scenario_D) 0 = Some x /\
    index w' = 0 /\
    events w' = events scenario_D ++ [PreventDefault; FireSelect (Some x) 0] /\
    isVisible w' = false /\
    active (element w') = Some 0 /\
    value (input w') = x.
Proof.
  split; [split; by_evaluation|].
  apply (tab_selects_first 3 scenario_D). split; by_evaluation.
Defined.

(** X13.  Over rendered items and with a row selected, enter commits that
    row: it fires [select] with its item and its index, hides the dropdown
    and leaves the item in the input and the index where it was. *)
Theorem enter_commits_selection (n : nat) (w : TypeAhead) :
  open_over n w -> 0 <= index w < Z.of_nat n ->
  exists w' x,
    _cycle "enter" w = Returned w' /\
    Js.at_index (items w) (index w) = Some x /\
    events w' = events w ++ [FireSelect (Some x) (index w)] /\
    isVisible w' = false /\
    index w' = index w /\
    active (element w') = Some (index w) /\
    value (input w') = x.
Proof.
  intros Ho Hi. rewrite (cycle_unfold "enter" w (open_cycling n w Ho)). cbn zeta.
  cbn [String.eqb Ascii.eqb Bool.eqb].
  destruct Ho as [Hv Hit Hr Hn Hl].
  destruct (at_index_some (items w) (index w)) as [x Hx]; [lia|].
  set (w1 := hide _).
  destruct (select_row_frame (items w) w1)
    as (w' & E & Ex & _ & _ & Es & Ea & Eval & Ee & _).
  { right. subst w1. simpl_widget. lia. }
  exists w', x. subst w1. simpl_widget.
  rewrite E, Ex, Ee, Ea, Eval, Hx. unfold isVisible. rewrite Es.
  destruct (Z.ltb_spec (index w) 0); [lia|]. repeat split.
Qed.

Lemma enter_commits_selection_witness :
  open_over 3 scenario_D /\ 0 <= index scenario_D < 3 /\
  exists w' x,
    _cycle "enter" scenario_D = Returned w' /\
    Js.at_index (items scenario_D) (index scenario_D) = Some x /\
    events w' = events scenario_D ++ [FireSelect (Some x) (index scenario_D)] /\
    isVisible w' = false /\
    index w' = index scenario_D /\
    active (element w') = Some (index scenario_D) /\
    value (input w') = x.
Proof.
  split; [split; by_evaluation|]. split; [by_evaluation|].
  apply (enter_commits_selection 3 scenario_D); [split; by_evaluation|by_evaluation].
Defined.

(** Up and down preview the row they move to. *)
Lemma preview_row n w i :
  open_over n w -> 0 <= i < Z.of_nat n ->
  exists w',
    select_row (items w) (with_index w i) = Returned w' /\
    index w' = i /\ open_over n w' /\ events w' = events w /\
    active (element w') = Some i /\
    Js.at_index (items w) i = Some (value (input w')) /\
    items w' = items w.
Proof.
  intros Ho Hi. destruct Ho as [Hv Hit Hr Hn Hl].
  destruct (select_row_frame (items w) (with_index w i))
    as (w' & E & Ex & Ei & Er & Es & Ea & Eval & Ee & _ & _ & Eo & _).
  { right. simpl_widget. lia. }
  simpl_widget. destruct (Z.ltb_spec i 0); [lia|].
  destruct (at_index_some (items w) i) as [x Hx]; [lia|].
  rewrite Hx in Eval. cbn [default] in Eval.
  exists w'. rewrite Ex, Ee, Ea, Eval, Hx, Ei. repeat split; try assumption.
  - unfold isVisible. now rewrite Es.
  - now rewrite Ei.
  - now rewrite Er.
  - now rewrite Eo.
Qed.

(** X14.  Over rendered items up and down only preview: the row they move
    to is marked active and its item is put into the input, the dropdown
    stays open, and no event is fired. *)
Theorem arrows_preview_without_selecting (n : nat) (w : TypeAhead) :
  open_over n w -> -1 <= index w < Z.of_nat n ->
  (exists w',
     _cycle "up" w = Returned w' /\ open_over n w' /\ events w' = events w /\
     active (element w') = Some (index w') /\
     Js.at_index (items w') (index w') = Some (value (input w'))) /\
  (exists w',
     _cycle "down" w = Returned w' /\ open_over n w' /\ events w' = events w /\
     active (element w') = Some (index w') /\
     Js.at_index (items w') (index w') = Some (value (input w'))).
Proof.
  intros Ho Hi. pose proof (oo_some n w Ho) as Hn.
  rewrite (cycle_unfold "up" w (open_cycling n w Ho)).
  rewrite (cycle_unfold "down" w (open_cycling n w Ho)). cbn zeta.
  cbn [String.eqb Ascii.eqb Bool.eqb]. rewrite (open_limit n w Ho).
  simpl_widget. split.
  - destruct (Z.ltb_spec (index w - 1) 0).
    + change (with_index (with_index w (index w - 1)) (Z.of_nat n - 1))
        with (with_index w (Z.of_nat n - 1)).
      destruct (preview_row n w (Z.of_nat n - 1) Ho)
        as (w' & E & Ex & Ho' & Ee & Ea & Hv & Ei); [lia|].
      exists w'. rewrite E, Ex, Ei. auto.
    + destruct (preview_row n w (index w - 1) Ho)
        as (w' & E & Ex & Ho' & Ee & Ea & Hv & Ei); [lia|].
      exists w'. rewrite E, Ex, Ei. auto.
  - destruct (Z.leb_spec (Z.of_nat n) (index w + 1)).
    + change (with_index (with_index w (index w + 1)) 0) with (with_index w 0).
      destruct (preview_row n w 0 Ho)
        as (w' & E & Ex & Ho' & Ee & Ea & Hv & Ei); [lia|].
      exists w'. rewrite E, Ex, Ei. auto.
    + destruct (preview_row n w (index w + 1) Ho)
        as (w' & E & Ex & Ho' & Ee & Ea & Hv & Ei); [lia|].
      exists w'. rewrite E, Ex, Ei. auto.
Qed.

Lemma arrows_preview_without_selecting_witness :
  open_over 2 scenario_C_open /\ -1 <= index scenario_C_open < 2 /\
  (exists w',
     _cycle "up" scenario_C_open = Returned w' /\ open_over 2 w' /\
     events w' = events scenario_C_open /\
     active (element w') = Some (index w') /\
     Js.at_index (items w') (index w') = Some (value (input w'))) /\
  (exists w',
     _cycle "down" scenario_C_open = Returned w' /\ open_over 2 w' /\
     events w' = events scenario_C_open /\
     active (element w') = Some (index w') /\
     Js.at_index (items w') (index w') = Some (value (input w'))).
Proof.
  split; [split; by_evaluation|]. split; [by_evaluation|].
  apply (arrows_preview_without_selecting 2 scenario_C_open);
    [split; by_evaluation|by_evaluation].
Defined.

(** X15.  From a row, down undoes up and up undoes down: the index is back
    where it was. *)
Theorem up_and_down_are_inverse (n : nat) (w : TypeAhead) :
  open_over n w -> 0 <= index w < Z.of_nat n ->
  index (pressed "down" (pressed "up" w)) = index w /\
  index (pressed "up" (pressed "down" w)) = index w.
Proof.
  intros Ho Hi. pose proof (oo_some n w Ho) as Hn.
  destruct (cycle_up n w Ho) as (wu & Eu & Hu & Hou); [lia|].
  destruct (cycle_down n w Ho) as (wd & Ed & Hd & Hod); [lia|].
  assert (Hur : -1 <= index wu < Z.of_nat n).
  { rewrite Hu. destruct (Z.ltb_spec (index w - 1) 0); lia. }
  assert (Hdr : -1 <= index wd < Z.of_nat n).
  { rewrite Hd. destruct (Z.leb_spec (Z.of_nat n) (index w + 1)); lia. }
  destruct (cycle_down n wu Hou Hur) as (wud & Eud & Hud & _).
  destruct (cycle_up n wd Hod Hdr) as (wdu & Edu & Hdu & _).
  unfold pressed. rewrite Eu, Ed. cbn [widget_of]. rewrite Eud, Edu.
  cbn [widget_of]. rewrite Hud, Hdu, Hu, Hd.
  split.
  - destruct (Z.ltb_spec (index w - 1) 0);
      [destruct (Z.leb_spec (Z.of_nat n) (Z.of_nat n - 1 + 1))
      |destruct (Z.leb_spec (Z.of_nat n) (index w - 1 + 1))]; lia.
  - destruct (Z.leb_spec (Z.of_nat n) (index w + 1));
      [destruct (Z.ltb_spec (0 - 1) 0)
      |destruct (Z.ltb_spec (index w + 1 - 1) 0)]; lia.
Qed.

Lemma up_and_down_are_inverse_witness :
  open_over 3 scenario_D /\ 0 <= index scenario_D < 3 /\
  index (pressed "down" (pressed "up" scenario_D)) = index scenario_D /\
  index (pressed "up" (pressed "down" scenario_D)) = index scenario_D.
Proof.
  split; [split; by_evaluation|]. split; [by_evaluation|].
  apply (up_and_down_are_inverse 3 scenario_D); [split; by_evaluation|by_evaluation].
Defined.

(** X16.  Of the two handlers only one acts on a key: [_lookup] leaves the
    widget as it is for up, down, esc, tab and enter, and [_cycle] leaves it
    as it is for every other key. *)
Theorem one_handler_per_key (key : string) (w : TypeAhead) :
  if contains navigation_keys key
  then _lookup key w = w /\ keystroke key w = _cycle key w
  else _cycle key w = Returned w /\ keystroke key w = Returned (_lookup key w).
Proof.
  unfold keystroke. destruct (contains navigation_keys key) eqn:Hk.
  - assert (L : forall w1, _lookup key w1 = w1).
    { intros w1. unfold _lookup. now rewrite Hk. }
    split; [apply L|]. destruct (_cycle key w); now rewrite L.
  - assert (E : _cycle key w = Returned w).
    { unfold _cycle. cbn zeta.
      destruct (_ || _); [reflexivity|].
      unfold contains, navigation_keys in Hk. cbn [existsb] in Hk.
      rewrite !orb_false_iff in Hk. destruct Hk as (H1 & H2 & H3 & H4 & H5 & _).
      now rewrite H1, H2, H4, H5, H3. }
    rewrite E. split; reflexivity.
Qed.

(** ** More on scheduling *)

Lemma process_timers (h : Holder) (raw : list string) (w : TypeAhead) :
  timeouts (widget_of (process h raw w)) = timeouts w /\
  timer (widget_of (process h raw w)) = timer w.
Proof.
  destruct (String.eqb_spec (term w) "") as [Ht|Ht].
  - now rewrite process_nothing by auto.
  - destruct raw as [|x raw]; [now rewrite process_nothing by auto|].
    destruct (process_keeps h (x :: raw) w Ht) as [_ _ _ _ _ H1 H2 _];
      [discriminate|]. now split.
Qed.

Lemma process_sorted_timers (sorted : list string) (w : TypeAhead) :
  timeouts (widget_of (process_sorted sorted w)) = timeouts w /\
  timer (widget_of (process_sorted sorted w)) = timer w.
Proof.
  unfold process_sorted. rewrite render_spec.
  set (ul := (_ ++ _)%list). set (w1 := rendered_into _ _ _).
  destruct (append_list_keeps ul w1) as (_ & _ & _ & _ & _ & H1 & H2 & _).
  now rewrite H1, H2.
Qed.

Lemma process_member_timers (m : Js.Member) (w : TypeAhead) :
  timeouts (widget_of (process_member m w)) = timeouts w /\
  timer (widget_of (process_member m w)) = timer w.
Proof.
  unfold process_member.
  destruct (_ || _); [now split|]. simpl_widget.
  destruct (sorter (options w)) as [|f|].
  2: { destruct (given_member f m); [now split|].
       destruct (process_sorted_timers l (with_index (with_items w []) (-1)))
         as [H1 H2]. now rewrite H1, H2. }
  all: destruct (itemLimit (options w) <=? 0);
    [destruct (process_sorted_timers [] (with_index (with_items w []) (-1)))
       as [H1 H2]; now rewrite H1, H2|];
    destruct (matcher (options w)); try (now split);
    destruct (Js.split_space _) as [|t0 ?]; try (now split);
    destruct (String.eqb t0 ""); now split.
Qed.

Lemma select_row_timers (its : list string) (w : TypeAhead) :
  timeouts (widget_of (select_row its w)) = timeouts w /\
  timer (widget_of (select_row its w)) = timer w.
Proof.
  unfold select_row. simpl_widget.
  destruct (0 <=? index w); [destruct (Js.at_index _ _)|]; now split.
Qed.

Lemma cycle_timers (key : string) (w : TypeAhead) :
  timeouts (widget_of (_cycle key w)) = timeouts w /\
  timer (widget_of (_cycle key w)) = timer w.
Proof.
  unfold _cycle. cbn zeta.
  repeat match goal with
         | |- context [if ?c then _ else _] => destruct c
         end;
    try (now split);
    match goal with
    | |- context [select_row ?its ?w1] =>
        destruct (select_row_timers its w1) as [H1 H2]; rewrite H1, H2
    end; now split.
Qed.

Lemma lookup_timeout_timers (t : string) (w : TypeAhead) :
  timeouts (widget_of (lookup_timeout t w)) = timeouts w /\
  timer (widget_of (lookup_timeout t w)) = timer w.
Proof.
  unfold lookup_timeout.
  destruct (property (cache w) t);
    [apply process_timers|apply process_member_timers|].
  destruct (source (options w)) as [l|url|f|]; cbn [widget_of].
  - destruct (process_timers TheSource l (observe w ReadSource)) as [H1 H2].
    now rewrite H1, H2.
  - destruct (property (cache w) url);
      [apply process_timers|apply process_member_timers|now split].
  - destruct (truthy _); cbn [widget_of]; [|now split].
    destruct (process_timers Unshared (elements (attempt f [] (context_of w)))
                (observe w (CallSource []))) as [H1 H2].
    now rewrite H1, H2.
  - now split.
Qed.

(** X17.  The lookups are debounced: when at most one timer waits and it is
    the one the widget remembers, this is still so after any key has been
    released or pressed and after the timer has run; a key that starts a
    lookup replaces the waiting timer instead of adding one. *)
Theorem handlers_keep_one_timer (key : string) (w : TypeAhead) :
  debounced w ->
  debounced (_lookup key w) /\
  debounced (widget_of (_cycle key w)) /\
  (forall n r, run_timeout n w = Some r -> timeouts (widget_of r) = []).
Proof.
  intros Hd. split; [|split].
  - unfold _lookup. destruct (contains navigation_keys key); [exact Hd|].
    cbn zeta.
    assert (Hc : timeouts (clearTimeout (timer w) w) = []).
    { destruct Hd as [E|(t & E & Et)].
      - unfold clearTimeout. destruct (timer w); simpl_widget; now rewrite E.
      - rewrite Et. unfold clearTimeout. simpl_widget. rewrite E.
        cbn [List.filter]. now rewrite Nat.eqb_refl. }
    destruct (_ <? _).
    + left. simpl_widget. exact Hc.
    + right. unfold lookup. simpl_widget. rewrite Hc. cbn [app].
      eexists. split; reflexivity.
  - destruct (cycle_timers key w) as [H1 H2]. unfold debounced.
    now rewrite H1, H2.
  - intros n r. unfold run_timeout.
    destruct (List.find _ (timeouts w)) as [t|] eqn:E; [|discriminate].
    intros [= <-].
    change (with_timeouts w _ _) with (clearTimeout (Some n) w).
    destruct (lookup_timeout_timers (due t) (clearTimeout (Some n) w)) as [H1 _].
    rewrite H1. unfold clearTimeout. simpl_widget.
    destruct Hd as [E0|(t0 & E0 & _)]; rewrite E0 in *; [discriminate|].
    cbn [List.find List.filter] in *.
    destruct (Nat.eqb (handle t0) n); [reflexivity|discriminate].
Qed.

Lemma handlers_keep_one_timer_witness :
  debounced scenario_B /\
  debounced (_lookup "p" scenario_B) /\
  debounced (widget_of (_cycle "p" scenario_B)) /\
  (forall n r, run_timeout n scenario_B = Some r -> timeouts (widget_of r) = []).
Proof.
  assert (H : debounced scenario_B).
  { right. eexists. split; by_evaluation. }
  split; [exact H|]. apply (handlers_keep_one_timer "p" scenario_B H).
Defined.

Lemma trim_left_head s c r :
  Js.trim_left s = String c r -> Js.is_white c = false.
Proof.
  induction s as [|a s IH]; cbn [Js.trim_left]; [discriminate|].
  destruct (Js.is_white a) eqn:E; [exact IH|]. now intros [= <- _].
Qed.

Lemma clearTimeout_cache h w :
  cache (clearTimeout h w) = cache w /\ element (clearTimeout h w) = element w.
Proof. now destruct h. Qed.

Lemma run_single_timeout (w : TypeAhead) (tm : Timeout) :
  timeouts w = [tm] ->
  run_timeout (handle tm) w =
  Some (lookup_timeout (due tm) (clearTimeout (Some (handle tm)) w)) /\
  timeouts (clearTimeout (Some (handle tm)) w) = [].
Proof.
  intros E. unfold run_timeout, clearTimeout. simpl_widget. rewrite E.
  cbn [List.find List.filter]. now rewrite Nat.eqb_refl.
Qed.

(** What a key that starts a lookup leaves behind. *)
Lemma keyup_schedules (key : string) (w : TypeAhead) :
  contains navigation_keys key = false -> debounced w ->
  minLength (options w) <= Js.length (Js.trim (value (input w))) ->
  timeouts (_lookup key w) =
    [Build_Timeout (next_timeout w) (throttle (options w))
       (Js.trim (value (input w)))] /\
  term (_lookup key w) = Js.trim (value (input w)) /\
  timer (_lookup key w) = Some (next_timeout w) /\
  cache (_lookup key w) = cache w /\ options (_lookup key w) = options w /\
  element (_lookup key w) = element w /\ events (_lookup key w) = events w /\
  input (_lookup key w) = input w /\ items (_lookup key w) = items w /\
  index (_lookup key w) = index w.
Proof.
  intros Hk Hd Hlen. unfold _lookup. rewrite Hk. cbn zeta.
  destruct (clearTimeout_frame (timer w) w)
    as (Hi & Ho & Ht & He & Hit & Hix & Hn & Htm).
  destruct (clearTimeout_cache (timer w) w) as [Hc Hel].
  assert (Hts : timeouts (clearTimeout (timer w) w) = []).
  { destruct Hd as [E|(t & E & Et)].
    - unfold clearTimeout. destruct (timer w); simpl_widget; now rewrite E.
    - rewrite Et. unfold clearTimeout. simpl_widget. rewrite E.
      cbn [List.filter]. now rewrite Nat.eqb_refl. }
  rewrite Hi, Ho.
  destruct (Z.ltb_spec (Js.length (Js.trim (value (input w))))
              (minLength (options w))); [lia|].
  unfold lookup. simpl_widget. rewrite Hts, Hn, Ho, Hc, Hel, He, Hi, Hit, Hix.
  repeat split.
Qed.

Lemma missing_not_proto {A} (own : gmap string A) k :
  property own k = Missing -> k <> "__proto__".
Proof. intros H ->. apply property_missing in H as [_ H]. discriminate. Qed.

Lemma source_left (l : list string) (w : TypeAhead) :
  source (options w) = SrcArray l ->
  source (options (sorted_in_place TheSource l w)) =
  SrcArray (left_by (options w) l).
Proof.
  intros Hs. unfold sorted_in_place, left_by.
  destruct (sorter (options w)); cbn [put_back]; simpl_widget;
    [exact Hs|reflexivity|exact Hs].
Qed.

(** X18.  From key to list, over an array source and without a content
    element: a key that is not a navigation key, released over an input
    whose trimmed value is long enough, not empty, not cached and no name
    of a member of every object, starts the one timer; when it runs the
    source is read once and the widget shows, under the trimmed value as
    term, the matching items of the sorted source up to the limit, and
    caches them.  The term has no white space at its start, and the source
    holds what the sorter left in it. *)
Theorem keyup_renders_from_array (key : string) (w : TypeAhead) (l : list string) :
  contains navigation_keys key = false -> debounced w ->
  source (options w) = SrcArray l -> l <> [] -> 0 <= itemLimit (options w) ->
  contentElement (options w) = "" ->
  minLength (options w) <= Js.length (Js.trim (value (input w))) ->
  Js.trim (value (input w)) <> "" ->
  property (cache w) (Js.trim (value (input w))) = Missing ->
  exists w',
    run_timeout (next_timeout w) (_lookup key w) = Some (Returned w') /\
    term w' = Js.trim (value (input w)) /\
    (forall c r, term w' = String c r -> Js.is_white c = false) /\
    items w' =
      firstn (Z.to_nat (itemLimit (options w)))
        (List.filter (matches (options w) (Js.trim (value (input w))))
           (apply_sorter (options w) l)) /\
    cache w' !! term w' = Some (items w') /\
    source_accesses (events w') = source_accesses (events w) ++ [ReadSource] /\
    timeouts w' = [] /\
    source (options w') = SrcArray (left_by (options w) l).
Proof.
  intros Hk Hd Hs Hl Hlim Hce Hlen Hne Hmiss.
  set (t := Js.trim (value (input w))) in *.
  destruct (keyup_schedules key w Hk Hd Hlen)
    as (Hts & Ht & _ & Hc & Ho & _ & He & _).
  fold t in Hts, Ht.
  destruct (run_single_timeout (_lookup key w) _ Hts) as [Hrun Hclear].
  cbn [handle due] in Hrun, Hclear. rewrite Hrun.
  set (w2 := clearTimeout (Some (next_timeout w)) (_lookup key w)) in *.
  destruct (clearTimeout_frame (Some (next_timeout w)) (_lookup key w))
    as (_ & Ho2 & Ht2 & He2 & _).
  destruct (clearTimeout_cache (Some (next_timeout w)) (_lookup key w)) as [Hc2 _].
  fold w2 in Ho2, Ht2, He2, Hc2.
  rewrite Ho in Ho2. rewrite Ht in Ht2. rewrite He in He2. rewrite Hc in Hc2.
  unfold lookup_timeout. rewrite Hc2, Hmiss, Ho2, Hs.
  assert (Htw : term (observe w2 ReadSource) <> "") by (simpl_widget; congruence).
  destruct (process_renders TheSource l (observe w2 ReadSource) Htw Hl)
    as (w' & E & [Hi _ Hev Hca _ _ _ Hterm Hop _ _ Hto _]).
  { simpl_widget. now rewrite Ho2. }
  { simpl_widget. rewrite Ht2. exact (missing_not_proto _ _ Hmiss). }
  exists w'. split; [now rewrite E|].
  simpl_widget. rewrite Ho2, Ht2 in Hi.
  rewrite Hterm, Ht2. split; [reflexivity|]. split.
  - intros c r E'. unfold t, Js.trim in E'. now apply trim_left_head in E'.
  - split; [|split; [|split; [|split]]].
    + rewrite Hi, evaluated_kept by exact Hlim. now rewrite Z.sub_0_r.
    + rewrite Hca, Ht2. apply lookup_insert_eq.
    + rewrite Hev, He2. unfold source_accesses.
      rewrite !List.filter_app. cbn [List.filter].
      fold (source_accesses (calls (options w2) (term w2)
              (evaluated (options w2) (term w2) (apply_sorter (options w2) l) 0))).
      now rewrite calls_no_access, app_nil_r.
    + now rewrite Hto.
    + rewrite Hop, source_left by (simpl_widget; now rewrite Ho2, Hs).
      simpl_widget. now rewrite Ho2.
Qed.

Lemma keyup_renders_from_array_witness :
  contains navigation_keys "p" = false /\ debounced about_to_type /\
  source (options about_to_type) = SrcArray ["apple"; "banana"; "apricot"] /\
  ["apple"; "banana"; "apricot"] <> [] /\
  0 <= itemLimit (options about_to_type) /\
  contentElement (options about_to_type) = "" /\
  minLength (options about_to_type) <=
    Js.length (Js.trim (value (input about_to_type))) /\
  Js.trim (value (input about_to_type)) <> "" /\
  property (cache about_to_type) (Js.trim (value (input about_to_type))) =
    Missing /\
  exists w',
    run_timeout (next_timeout about_to_type) (_lookup "p" about_to_type) =
      Some (Returned w') /\
    term w' = Js.trim (value (input about_to_type)) /\
    (forall c r, term w' = String c r -> Js.is_white c = false) /\
    items w' =
      firstn (Z.to_nat (itemLimit (options about_to_type)))
        (List.filter
           (matches (options about_to_type)
              (Js.trim (value (input about_to_type))))
           (apply_sorter (options about_to_type)
              ["apple"; "banana"; "apricot"])) /\
    cache w' !! term w' = Some (items w') /\
    source_accesses (events w') =
      source_accesses (events about_to_type) ++ [ReadSource] /\
    timeouts w' = [] /\
    source (options w') =
      SrcArray (left_by (options about_to_type) ["apple"; "banana"; "apricot"]).
Proof.
  split; [reflexivity|]. split; [left; by_evaluation|].
  split; [by_evaluation|]. split; [discriminate|]. split; [by_evaluation|].
  split; [by_evaluation|].
  split; [by_evaluation|]. split; [by_evaluation|]. split; [by_evaluation|].
  apply (keyup_renders_from_array "p" about_to_type
           ["apple"; "banana"; "apricot"]);
    [reflexivity|left; by_evaluation|by_evaluation|discriminate|by_evaluation
    |by_evaluation|by_evaluation|by_evaluation|by_evaluation].
Defined.

(** ** More on the sources *)

(** X19.  With a string as source and a term under which the cache object
    answers nothing, the timer asks the server for the term and changes
    nothing else when the cache object answers nothing under the locator
    either; when a list is stored there, it hands that list to [process]
    and no access to the source is made. *)
Theorem string_source_requests_or_reuses (t url : string) (w : TypeAhead) :
  source (options w) = SrcString url -> property (cache w) t = Missing ->
  (property (cache w) url = Missing ->
   lookup_timeout t w = Returned (observe w (Request url (Some t)))) /\
  (forall pool, cache w !! url = Some pool ->
     lookup_timeout t w = process (CacheEntry url) pool w /\
     source_accesses (events (widget_of (lookup_timeout t w))) =
       source_accesses (events w)).
Proof.
  intros Hs Hc. unfold lookup_timeout. rewrite Hc, Hs. split.
  - now intros ->.
  - intros pool Hp. rewrite (property_stored _ _ _ Hp). split; [reflexivity|].
    destruct (process_events (CacheEntry url) pool w) as (evs & He & Ha).
    rewrite He. unfold source_accesses in *. rewrite List.filter_app, Ha.
    apply app_nil_r.
Qed.

Lemma string_source_requests_or_reuses_witness :
  source (options prefetched) = SrcString "/items" /\
  property (cache prefetched) "p" = Missing /\
  cache prefetched !! "/items" = Some ["pear"; "apple"; "peach"] /\
  items (widget_of (lookup_timeout "pe" (with_term prefetched "pe"))) =
    ["peach"; "pear"] /\
  (property (cache prefetched) "/items" = Missing ->
   lookup_timeout "p" prefetched =
     Returned (observe prefetched (Request "/items" (Some "p")))) /\
  (forall pool, cache prefetched !! "/items" = Some pool ->
     lookup_timeout "p" prefetched = process (CacheEntry "/items") pool prefetched /\
     source_accesses (events (widget_of (lookup_timeout "p" prefetched))) =
       source_accesses (events prefetched)).
Proof.
  split; [by_evaluation|]. split; [by_evaluation|]. split; [by_evaluation|].
  split; [by_evaluation|].
  apply (string_source_requests_or_reuses "p" "/items" prefetched); by_evaluation.
Defined.

(** X20.  Prefetching: the constructor asks for the whole list once, without
    a term, when [prefetch] is set and the source is a string; once the
    response is stored under the locator, the lookup of a term that is not
    the locator and names no member of every object renders from it,
    filtered by the term, without another request.  The stored list is the
    array that [process] is handed, so that afterwards the cache holds it
    as the sorter left it. *)
Theorem prefetch_feeds_lookups (i : Input) (o : Options) (url t : string)
    (pool : list string) :
  tag i = "input" -> source o = SrcString url -> prefetch o = true ->
  contentElement o = "" -> url <> "__proto__" ->
  t <> url -> t <> "" -> Js.object_member t = None -> pool <> [] ->
  exists w0 w1,
    initialize i o = Returned w0 /\
    events w0 = [Request url None; FireInit] /\
    prefetch_success url pool w0 = Returned w1 /\
    cache w1 !! url = Some pool /\ items w1 = pool /\
    exists w',
      run_timeout 0 (lookup t w1) = Some (Returned w') /\
      items w' =
        List.filter (matches (with_callbacks o) t)
          (evaluated (with_callbacks o) t (apply_sorter (with_callbacks o) pool) 0) /\
      source_accesses (events w') = [Request url None] /\
      cache w' !! url = Some (left_by (with_callbacks o) pool).
Proof.
  intros Htag Hs Hp Hce Hurl Hne Ht Hplain Hpool.
  unfold initialize. rewrite Htag, Hs, Hp.
  cbn [String.eqb Ascii.eqb Bool.eqb negb].
  eexists. unfold prefetch_success.
  destruct (String.eqb_spec url "__proto__"); [contradiction|].
  eexists. split; [reflexivity|]. split; [reflexivity|].
  split; [reflexivity|]. simpl_widget.
  split; [apply lookup_insert_eq|]. split; [reflexivity|].
  set (w1 := with_cache _ _).
  destruct (run_single_timeout (lookup t w1)
              (Build_Timeout 0 (throttle o) t) eq_refl) as [Hrun _].
  cbn [handle due] in Hrun. rewrite Hrun.
  set (w2 := clearTimeout (Some 0%nat) (lookup t w1)).
  assert (Hcache : cache w2 = <[url := pool]> ∅) by reflexivity.
  assert (Ho : options w2 = with_callbacks o) by reflexivity.
  assert (Htm : term w2 = t) by reflexivity.
  assert (Hev : events w2 = [Request url None; FireInit]) by reflexivity.
  assert (Hc : property (cache w2) t = Missing).
  { apply property_missing. split; [|exact Hplain].
    rewrite Hcache, lookup_insert_ne by congruence. apply lookup_empty. }
  assert (Hu : cache w2 !! url = Some pool).
  { rewrite Hcache. apply lookup_insert_eq. }
  unfold lookup_timeout. rewrite Hc, Ho.
  assert (Hsrc : source (with_callbacks o) = SrcString url) by exact Hs.
  rewrite Hsrc, (property_stored _ _ _ Hu).
  assert (Hw : term w2 <> "") by now rewrite Htm.
  destruct (process_renders (CacheEntry url) pool w2 Hw Hpool)
    as (w' & E & [Hi _ He Hca _ _ _ _ _ _ _ _ _]).
  { now rewrite Ho. }
  { rewrite Htm. intros ->. discriminate. }
  exists w'. split; [now rewrite E|]. rewrite Hi, Ho, Htm.
  split; [reflexivity|]. split.
  - rewrite He, Hev. unfold source_accesses. rewrite !List.filter_app.
    fold (source_accesses (calls (options w2) (term w2)
            (evaluated (options w2) (term w2) (apply_sorter (options w2) pool) 0))).
    rewrite calls_no_access. reflexivity.
  - rewrite Hca, Htm. rewrite lookup_insert_ne by congruence.
    unfold sorted_in_place, left_by. rewrite Ho.
    destruct (sorter (with_callbacks o)); cbn [put_back]; simpl_widget;
      [exact Hu|apply lookup_insert_eq|exact Hu].
Qed.

Lemma prefetch_feeds_lookups_witness :
  tag sample_input = "input" /\ source prefetch_options = SrcString "/items" /\
  prefetch prefetch_options = true /\
  contentElement prefetch_options = "" /\ "/items" <> "__proto__" /\
  "pe" <> "/items" /\ "pe" <> "" /\ Js.object_member "pe" = None /\
  ["pear"; "apple"; "peach"] <> [] /\
  left_by (with_callbacks prefetch_options) ["pear"; "apple"; "peach"] =
    ["apple"; "peach"; "pear"] /\
  exists w0 w1,
    initialize sample_input prefetch_options = Returned w0 /\
    events w0 = [Request "/items" None; FireInit] /\
    prefetch_success "/items" ["pear"; "apple"; "peach"] w0 = Returned w1 /\
    cache w1 !! "/items" = Some ["pear"; "apple"; "peach"] /\
    items w1 = ["pear"; "apple"; "peach"] /\
    exists w',
      run_timeout 0 (lookup "pe" w1) = Some (Returned w') /\
      items w' =
        List.filter (matches (with_callbacks prefetch_options) "pe")
          (evaluated (with_callbacks prefetch_options) "pe"
             (apply_sorter (with_callbacks prefetch_options)
                ["pear"; "apple"; "peach"]) 0) /\
      source_accesses (events w') = [Request "/items" None] /\
      cache w' !! "/items" =
        Some (left_by (with_callbacks prefetch_options)
                ["pear"; "apple"; "peach"]).
Proof.
  split; [reflexivity|]. split; [reflexivity|]. split; [reflexivity|].
  split; [reflexivity|]. split; [discriminate|].
  split; [discriminate|]. split; [discriminate|]. split; [reflexivity|].
  split; [discriminate|]. split; [by_evaluation|].
  apply (prefetch_feeds_lookups sample_input prefetch_options "/items" "pe"
           ["pear"; "apple"; "peach"]);
    [reflexivity|reflexivity|reflexivity|reflexivity|discriminate|discriminate
    |discriminate|reflexivity|discriminate].
Defined.



Lemma process_sorted_events (sorted : list string) (w : TypeAhead) :
  source_accesses (events (widget_of (process_sorted sorted w))) =
  source_accesses (events w).
Proof.
  unfold process_sorted. rewrite render_spec.
  set (ul := (_ ++ _)%list). set (w1 := rendered_into _ _ _).
  destruct (append_list_keeps ul w1) as (_ & _ & He & _).
  rewrite He. unfold w1. simpl_widget. unfold source_accesses.
  rewrite !List.filter_app.
  fold (source_accesses
          (calls (options w) (term w) (evaluated (options w) (term w) sorted 0))).
  rewrite calls_no_access.
  destruct (String.eqb _ ""); cbn [List.filter]; now rewrite !app_nil_r.
Qed.

Lemma process_member_events (m : Js.Member) (w : TypeAhead) :
  source_accesses (events (widget_of (process_member m w))) =
  source_accesses (events w).
Proof.
  unfold process_member.
  destruct (_ || _); [reflexivity|]. simpl_widget.
  destruct (sorter (options w)) as [|f|].
  2: { destruct (given_member f m); [reflexivity|].
       now rewrite process_sorted_events. }
  all: destruct (itemLimit (options w) <=? 0);
    [now rewrite process_sorted_events|];
    destruct (matcher (options w)); try reflexivity;
    destruct (Js.split_space _) as [|t0 ?]; try reflexivity;
    destruct (String.eqb t0 ""); reflexivity.
Qed.

(** X28.  A term that names a member of every object, and under which
    nothing is stored, is taken for cached: the timer hands the member to
    [process] and the source is not consulted, whatever it is.  A member
    without a length ([toString], [valueOf], [__proto__]) only hides the
    dropdown; one with a length ([constructor], [hasOwnProperty]) gets past
    the guard, where the default sorter fails on it after the items and
    the index have been reset. *)
Theorem inherited_name_bypasses_source (t : string) (m : Js.Member)
    (w : TypeAhead) :
  cache w !! t = None -> Js.object_member t = Some m ->
  lookup_timeout t w = process_member m w /\
  source_accesses (events (widget_of (lookup_timeout t w))) =
    source_accesses (events w) /\
  (Js.member_length m = 0 -> lookup_timeout t w = Returned (hide w)) /\
  (Js.member_length m <> 0 -> term w <> "" ->
   sorter (options w) = CbFunction sort ->
   lookup_timeout t w =
     Thrown (TypeError "items.sort is not a function")
       (with_index (with_items w []) (-1))).
Proof.
  intros Hc Hm. unfold lookup_timeout.
  rewrite (property_inherited _ _ _ Hc Hm). split; [reflexivity|].
  split; [apply process_member_events|]. split.
  - intros Hl. apply process_member_guard. now right.
  - intros Hl Ht Hs. now apply process_member_unsortable.
Qed.

Lemma inherited_name_bypasses_source_witness :
  cache (typed "constructor" scenario_A) !! "constructor" = None /\
  Js.object_member "constructor" = Some (Js.Method 1) /\
  items (typed "constructor" scenario_A) = ["apple"; "apricot"] /\
  error_of <$> run_timeout 1 (typed "constructor" scenario_A) =
    Some (Some (TypeError "items.sort is not a function")) /\
  items (after_timeout 1 (typed "constructor" scenario_A)) = [] /\
  isVisible (after_timeout 1 (typed "constructor" scenario_A)) = true /\
  run_timeout 1 (typed "toString" scenario_A) =
    Some (Returned (hide (clearTimeout (Some 1%nat) (typed "toString" scenario_A)))) /\
  lookup_timeout "constructor" (typed "constructor" scenario_A) =
    process_member (Js.Method 1) (typed "constructor" scenario_A) /\
  source_accesses
    (events (widget_of (lookup_timeout "constructor" (typed "constructor" scenario_A)))) =
    source_accesses (events (typed "constructor" scenario_A)) /\
  (Js.member_length (Js.Method 1) = 0 ->
   lookup_timeout "constructor" (typed "constructor" scenario_A) =
     Returned (hide (typed "constructor" scenario_A))) /\
  (Js.member_length (Js.Method 1) <> 0 ->
   term (typed "constructor" scenario_A) <> "" ->
   sorter (options (typed "constructor" scenario_A)) = CbFunction sort ->
   lookup_timeout "constructor" (typed "constructor" scenario_A) =
     Thrown (TypeError "items.sort is not a function")
       (with_index (with_items (typed "constructor" scenario_A) []) (-1))).
Proof.
  split; [by_evaluation|]. split; [reflexivity|]. split; [by_evaluation|].
  split; [by_evaluation|]. split; [by_evaluation|]. split; [by_evaluation|].
  split; [by_evaluation|].
  apply (inherited_name_bypasses_source "constructor" (Js.Method 1)
           (typed "constructor" scenario_A)); [by_evaluation|reflexivity].
Defined.

(** X25.  A key that starts or drops a lookup cancels the one that waits:
    the timer that was waiting (its handle is one already handed out) does
    not run any more. *)
Theorem keyup_cancels_waiting_timer (key : string) (w : TypeAhead) (tm : Timeout) :
  contains navigation_keys key = false ->
  timeouts w = [tm] -> timer w = Some (handle tm) ->
  handle tm <> next_timeout w ->
  run_timeout (handle tm) (_lookup key w) = None.
Proof.
  intros Hk Hts Htm Hfresh. unfold _lookup. rewrite Hk. cbn zeta.
  assert (Hc : timeouts (clearTimeout (timer w) w) = []).
  { rewrite Htm. unfold clearTimeout. simpl_widget. rewrite Hts.
    cbn [List.filter]. now rewrite Nat.eqb_refl. }
  destruct (clearTimeout_frame (timer w) w) as (_ & _ & _ & _ & _ & _ & Hn & _).
  destruct (_ <? _); unfold run_timeout.
  - simpl_widget. now rewrite Hc.
  - unfold lookup. simpl_widget. rewrite Hc, Hn. cbn [app List.find handle].
    destruct (Nat.eqb_spec (next_timeout w) (handle tm)); [congruence|reflexivity].
Qed.

Lemma keyup_cancels_waiting_timer_witness :
  contains navigation_keys "p" = false /\
  timeouts scenario_B = [Build_Timeout 0 250 "app"] /\
  timer scenario_B = Some (handle (Build_Timeout 0 250 "app")) /\
  handle (Build_Timeout 0 250 "app") <> next_timeout scenario_B /\
  run_timeout (handle (Build_Timeout 0 250 "app")) (_lookup "p" scenario_B) = None.
Proof.
  split; [reflexivity|]. split; [by_evaluation|]. split; [by_evaluation|].
  split; [by_evaluation|].
  apply (keyup_cancels_waiting_timer "p" scenario_B (Build_Timeout 0 250 "app"));
    [reflexivity|by_evaluation|by_evaluation|by_evaluation].
Defined.

(** ** The registry *)

Lemma initialize_element (i : Input) (o : Options) :
  if String.eqb (tag i) "input"
  then exists w, initialize i o = Returned w
  else initialize i o =
       Thrown NotAnInputElement (widget_of (initialize i o)).
Proof.
  unfold initialize. destruct (String.eqb (tag i) "input"); cbn [negb];
    [eexists|]; reflexivity.
Qed.

(** X23.  The factory makes one instance per id.  For an id under which the
    registry answers nothing, and an input, it registers the new instance
    under the id and leaves the other entries alone, and every later call
    with that id, for whatever element and options, gives that instance
    back and leaves the registry as it is; for an element that is no input
    it gives the error and registers nothing.  For an id that names a
    member of every object it constructs nothing and gives that member
    back. *)
Theorem factory_registers_once (id : string) (i i' : Input) (o o' : Options)
    (instances : gmap string TypeAhead) :
  instances !! id = None ->
  match Js.object_member id with
  | Some m => factory id i o instances = (inr (inl m), instances)
  | None =>
      if String.eqb (tag i) "input"
      then exists ta,
             factory id i o instances = (inr (inr ta), <[id := ta]> instances) /\
             initialize i o = Returned ta /\
             (forall k, k <> id -> <[id := ta]> instances !! k = instances !! k) /\
             factory id i' o' (<[id := ta]> instances) =
               (inr (inr ta), <[id := ta]> instances)
      else factory id i o instances = (inl NotAnInputElement, instances)
  end.
Proof.
  intros Hfree. unfold factory at 1 2 4. unfold property. rewrite Hfree.
  destruct (Js.object_member id) as [m|]; [reflexivity|].
  pose proof (initialize_element i o) as Hinit.
  destruct (String.eqb (tag i) "input").
  - destruct Hinit as [ta Hinit]. rewrite Hinit. cbn [error_of widget_of].
    exists ta.
    split; [reflexivity|]. split; [reflexivity|]. split.
    + intros k Hk. now apply lookup_insert_ne.
    + unfold factory, property. now rewrite lookup_insert_eq.
  - rewrite Hinit. reflexivity.
Qed.

Lemma factory_registers_once_witness :
  (∅ : gmap string TypeAhead) !! "search" = None /\
  factory "constructor" sample_input default_options ∅ =
    (inr (inl (Js.Method 1)), ∅) /\
  match Js.object_member "search" with
  | Some m => factory "search" sample_input default_options ∅ = (inr (inl m), ∅)
  | None =>
      if String.eqb (tag sample_input) "input"
      then exists ta,
             factory "search" sample_input default_options ∅ =
               (inr (inr ta), <["search" := ta]> ∅) /\
             initialize sample_input default_options = Returned ta /\
             (forall k, k <> "search" ->
                        <["search" := ta]> (∅ : gmap string TypeAhead) !! k =
                        (∅ : gmap string TypeAhead) !! k) /\
             factory "search" sample_div prefetch_options (<["search" := ta]> ∅) =
               (inr (inr ta), <["search" := ta]> ∅)
      else factory "search" sample_input default_options ∅ =
             (inl NotAnInputElement, ∅)
  end.
Proof.
  split; [apply lookup_empty|]. split; [reflexivity|].
  apply (factory_registers_once "search" sample_input sample_div
           default_options prefetch_options ∅).
  apply lookup_empty.
Defined.
